(** * HomepageFeatures: the homepage feature cards of the documentation site

    A shallow embedding of [my-docs/src/components/HomepageFeatures/index.js]:
    the module-level array [FeatureList], the card component [Feature] and
    the section component [HomepageFeatures], together with the part of the
    JSX runtime and of the renderer that the three of them go through. *)

From Stdlib Require Import ZArith String List Lia.
From stdpp Require Import base option list gmap strings pretty.

Local Open Scope string_scope.

(** ** JavaScript values *)

(** Heap addresses of the mutable objects of the module. *)
Abbreviation loc := positive.

(** Function components: the two declared in [index.js], and the default
    export of an imported module ([@theme/Heading], the svg assets), which
    stays opaque. *)
Inductive component : Set :=
| CFeature
| CHomepageFeatures
| CImport (path : string).

(** Numbers are the integers (array indices are the only numbers the module
    computes).  React elements and the arrays built while rendering are never
    written after their creation and are carried by value; the objects that
    outlive a render (the records, the array [FeatureList]) live in the heap
    and are reached through [VRef]. *)
#[warnings="-register-all"]
Inductive value : Type :=
| VUndefined
| VNull
| VBool (b : bool)
| VNumber (n : Z)
| VString (s : string)
| VComponent (c : component)
| VFragment
| VRef (l : loc)
| VArray (items : list value)
| VElement (type : value) (key : option value) (props : list (string * value)).

(** An object is its own enumerable properties, in insertion order. *)
Abbreviation object := (list (string * value)).

Fixpoint own (k : string) (o : object) : option value :=
  match o with
  | [] => None
  | (k', v) :: o' => if String.eqb k k' then Some v else own k o'
  end.

(** [o.k]: reading a property that is not there gives [undefined]. *)
Definition get (k : string) (o : object) : value :=
  default VUndefined (own k o).

Definition is_undefined (v : value) : bool :=
  match v with VUndefined => true | _ => false end.

(** ** The heap *)

Inductive hobj : Type :=
| HObject (fields : object)
| HArray (items : list value).

Abbreviation heap := (gmap loc hobj).

(** The elements of an array, whether a heap array or one carried by value. *)
Definition items_of (h : heap) (a : value) : option (list value) :=
  match a with
  | VArray items => Some items
  | VRef l => match h !! l with
              | Some (HArray items) => Some items
              | _ => None
              end
  | _ => None
  end.

(** The own properties of an array-like: the indices, as property names. *)
Definition indexed (items : list value) : object :=
  imap (fun i v => (pretty i, v)) items.

Definition chars (s : string) : list value :=
  (fun c => VString (String c EmptyString)) <$> list_ascii_of_string s.

(** What a spread [{...v}] copies: the own enumerable properties of [v]
    (for a string its characters, one per byte, which is exact for ASCII);
    nothing for [undefined], [null], booleans, numbers, symbols and
    functions.  The fields of a React element are private to React and are
    not modelled, and a reference always resolves in JavaScript: both give
    [None]. *)
Definition own_fields (h : heap) (v : value) : option object :=
  match v with
  | VRef l => match h !! l with
              | Some (HObject fields) => Some fields
              | Some (HArray items) => Some (indexed items)
              | None => None
              end
  | VArray items => Some (indexed items)
  | VString s => Some (indexed (chars s))
  | VElement _ _ _ => None
  | _ => Some []
  end.

(** ** Computations: heap passing with exceptions *)

Inductive error : Type :=
| TypeError (msg : string)
| InvalidElementType (type : value)
| ObjectAsChild (l : loc)
| Unmodelled (what : string)
| OutOfFuel.

Inductive result (A : Type) : Type :=
| Ok (a : A)
| Throw (e : error).
Arguments Ok {A} a.
Arguments Throw {A} e.

Definition M (A : Type) : Type := heap -> result A * heap.

Definition ret {A} (a : A) : M A := fun h => (Ok a, h).

Definition throw {A} (e : error) : M A := fun h => (Throw e, h).

Definition bind {A B} (m : M A) (k : A -> M B) : M B :=
  fun h => match m h with
           | (Ok a, h') => k a h'
           | (Throw e, h') => (Throw e, h')
           end.

Notation "'let!' x ':=' m 'in' k" := (bind m (fun x => k))
  (at level 10, x name, m at level 100, k at level 200,
   format "'[v' 'let!'  x  ':='  m  'in' '/' k ']'").

Fixpoint traverse {A B} (f : A -> M B) (l : list A) : M (list B) :=
  match l with
  | [] => ret []
  | x :: l' =>
      let! y := f x in
      let! ys := traverse f l' in
      ret (y :: ys)
  end.

(** [{...v}] as a computation: it reads the heap and writes nothing. *)
Definition spread (v : value) : M object :=
  fun h => match own_fields h v with
           | Some fields => (Ok fields, h)
           | None => (Throw (Unmodelled "spread"), h)
           end.

(** [a[k]] *)
Definition array_get (a : value) (k : nat) : M value :=
  fun h => (Ok (default VUndefined (items_of h a ≫= (.!! k))), h).

(** The loop of [Array.prototype.map]: the elements at [k], [k+1], ... are
    read one by one, each just before its callback runs. *)
Fixpoint map_loop (a : value) (cb : value -> nat -> M value)
    (k n : nat) : M (list value) :=
  match n with
  | O => ret []
  | S n' =>
      let! x := array_get a k in
      let! y := cb x k in
      let! ys := map_loop a cb (S k) n' in
      ret (y :: ys)
  end.

(** [a.map(cb)]: the length is read once, before the loop; the result is a
    fresh array. *)
Definition Array_map (a : value) (cb : value -> nat -> M value) : M value :=
  fun h => match items_of h a with
           | None => (Throw (TypeError "map is not a function"), h)
           | Some items =>
               (let! ys := map_loop a cb 0 (length items) in
                ret (VArray ys)) h
           end.

(** ** The JSX runtime *)

(** [jsx(type, config, maybeKey)] of the automatic runtime (the module does
    not import React, so its JSX compiles to these calls; [jsxs], for
    several children, is the same function).  A [key] attribute written
    before a spread is passed as [maybeKey]; a defined [config.key] wins
    over it; [key] is not copied into the props.  React stores the string
    ['' + key]: the element carries the key value under [Some], and
    [key_text] gives that string for the keys that are numbers or strings. *)
Definition hasValidKey (config : object) : bool :=
  negb (is_undefined (get "key" config)).

Definition jsx (type : value) (config : object) (maybeKey : value) : value :=
  let key := if is_undefined maybeKey then None else Some maybeKey in
  let key := if hasValidKey config then Some (get "key" config) else key in
  VElement type key (filter (fun p => p.1 ≠ "key") config).

Definition key_text (k : value) : option string :=
  match k with
  | VNumber n => Some (pretty n)
  | VString s => Some s
  | _ => None
  end.

(** ** The module [HomepageFeatures/index.js] *)

(** [import Heading from '@theme/Heading'] *)
Definition Heading : value := VComponent (CImport "@theme/Heading").

(** [require(path).default]: the component the bundler makes of an asset. *)
Definition require_default (path : string) : value :=
  VComponent (CImport path).

(** [<>text</>] *)
Definition fragment (children : value) : value :=
  jsx VFragment [("children", children)] VUndefined.

(** The JSX text of the three descriptions (lines 11-12, 21-22 and 31-32):
    the lines are trimmed and joined by one space. *)
Definition text_notes : string :=
  "Keep all your study notes structured and easily accessible in one centralized place.".
Definition text_code : string :=
  "Include code snippets, diagrams, and links that you can copy or reference instantly while studying.".
Definition text_markdown : string :=
  "Write your notes in Markdown, with full support for headings, lists, images, and links — powered by React for seamless integration.".

(** The three object literals of [FeatureList], lines 6 to 35. *)
Definition FeatureList_records : list object :=
  [ [ ("title", VString "Organized Study Notes");
      ("Svg", require_default "@site/static/img/undraw_docusaurus_mountain.svg");
      ("description", fragment (VString text_notes)) ];
    [ ("title", VString "Copyable Code & Diagrams");
      ("Svg", require_default "@site/static/img/undraw_docusaurus_tree.svg");
      ("description", fragment (VString text_code)) ];
    [ ("title", VString "Markdown Powered");
      ("Svg", require_default "@site/static/img/undraw_docusaurus_react.svg");
      ("description", fragment (VString text_markdown)) ] ].

(** The list a heap holds under [FeatureList]: the own properties of each
    element of the array, in the order of the array. *)
Definition read_list (h : heap) (a : value) : option (list object) :=
  items_of h a ≫= mapM (own_fields h).

(** [const FeatureList = [...]]: the binding holds the address of the array,
    and the array holds the addresses of its records. *)
Definition FeatureList_loc : loc := 1%positive.

Definition FeatureList : value := VRef FeatureList_loc.

(** The heap once the module is evaluated: the three records, then the array
    of their addresses. *)
Definition module_heap : heap :=
  list_to_map
    ((FeatureList_loc, HArray (VRef <$> [2; 3; 4]%positive))
       :: zip [2; 3; 4]%positive (HObject <$> FeatureList_records)).

(** What the renderer produces: host elements and text, and, for a component
    that is imported, the component with the props it is given. *)
#[warnings="-register-all"]
Inductive rnode : Type :=
| RText (s : string)
| RHost (tag : string) (attrs : object) (children : list rnode)
| RExternal (path : string) (props : object).

Definition children_of (props : object) : value := get "children" props.

Definition attributes (props : object) : object :=
  filter (fun p => p.1 ≠ "children") props.

Section Components.

(** [import clsx from 'clsx'] and [import styles from './styles.module.css']:
    neither is part of the sources; both are taken as they come,
    [styles k] standing for [styles.k]. *)
Variable clsx : list value -> value.
Variable styles : string -> value.

(** [function Feature({Svg, title, description})], lines 38 to 50. *)
Definition Feature (props : object) : value :=
  let Svg := get "Svg" props in
  let title := get "title" props in
  let description := get "description" props in
  jsx (VString "div")
    [ ("className", clsx [VString "col col--4"]);
      ("children", VArray
         [ jsx (VString "div")
             [ ("className", VString "text--center");
               ("children",
                 jsx Svg [ ("className", styles "featureSvg");
                           ("role", VString "img") ] VUndefined) ]
             VUndefined;
           jsx (VString "div")
             [ ("className", VString "text--center padding-horiz--md");
               ("children", VArray
                  [ jsx Heading [ ("as", VString "h3");
                                  ("children", title) ] VUndefined;
                    jsx (VString "p") [ ("children", description) ]
                      VUndefined ]) ]
             VUndefined ]) ]
    VUndefined.

(** The callback of line 57: [(props, idx) => <Feature key={idx} {...props} />]. *)
Definition card (props : value) (idx : nat) : M value :=
  let! config := spread props in
  ret (jsx (VComponent CFeature) config (VNumber (Z.of_nat idx))).

(** [export default function HomepageFeatures()], lines 52 to 64. *)
Definition HomepageFeatures (_ : object) : M value :=
  let! cards := Array_map FeatureList card in
  ret (jsx (VString "section")
         [ ("className", styles "features");
           ("children",
             jsx (VString "div")
               [ ("className", VString "container");
                 ("children",
                   jsx (VString "div")
                     [ ("className", VString "row");
                       ("children", cards) ]
                     VUndefined) ]
               VUndefined) ]
         VUndefined).

(** ** Rendering *)

(** The renderer, as far as this module goes through it: it calls the
    function components, descends into the children of host elements,
    flattens fragments and arrays, and leaves an imported component where
    it stands.  Nothing, booleans, symbols and functions render to
    nothing.  An element whose type is neither a tag nor a component, and
    a plain object met as a child, make React throw. *)
Fixpoint render (fuel : nat) (v : value) : M (list rnode) :=
  match fuel with
  | O => throw OutOfFuel
  | S n =>
      match v with
      | VUndefined | VNull | VBool _ | VComponent _ | VFragment => ret []
      | VNumber z => ret [RText (pretty z)]
      | VString s => ret (if String.eqb s "" then [] else [RText s])
      | VArray items =>
          let! rs := traverse (render n) items in
          ret (concat rs)
      | VRef l =>
          fun h => match h !! l with
                   | Some (HArray items) =>
                       (let! rs := traverse (render n) items in
                        ret (concat rs)) h
                   | _ => (Throw (ObjectAsChild l), h)
                   end
      | VElement type _ props =>
          match type with
          | VString tag =>
              let! kids := render n (children_of props) in
              ret [RHost tag (attributes props) kids]
          | VFragment => render n (children_of props)
          | VComponent CFeature => render n (Feature props)
          | VComponent CHomepageFeatures =>
              let! out := HomepageFeatures props in
              render n out
          | VComponent (CImport path) => ret [RExternal path props]
          | _ => throw (InvalidElementType type)
          end
      end
  end.

(** [<HomepageFeatures />] mounted as the root. *)
Definition render_root (fuel : nat) : M (list rnode) :=
  render fuel (jsx (VComponent CHomepageFeatures) [] VUndefined).

End Components.

(** The list of records behind [FeatureList] in a heap. *)
Definition read_FeatureList (h : heap) : option (list object) :=
  read_list h FeatureList.

(** ** Reading the output *)

Definition element_type (v : value) : value :=
  match v with VElement type _ _ => type | _ => VUndefined end.

Definition element_key (v : value) : option value :=
  match v with VElement _ key _ => key | _ => None end.

Definition element_props (v : value) : object :=
  match v with VElement _ _ props => props | _ => [] end.

Definition element_children (v : value) : value :=
  children_of (element_props v).

(** The cards of the section: the children of the row, which is the child of
    the container, which is the child of the section. *)
Definition row_cards (out : value) : list value :=
  match element_children (element_children (element_children out)) with
  | VArray cards => cards
  | _ => []
  end.

(** The element the callback of line 57 builds from the fields of a record. *)
Definition card_element (fields : object) (idx : nat) : value :=
  jsx (VComponent CFeature) fields (VNumber (Z.of_nat idx)).

(** The section around the cards, lines 54 to 62. *)
Definition section_of (styles : string -> value) (cards : list value) : value :=
  VElement (VString "section") None
    [ ("className", styles "features");
      ("children",
        VElement (VString "div") None
          [ ("className", VString "container");
            ("children",
              VElement (VString "div") None
                [ ("className", VString "row");
                  ("children", VArray cards) ]) ]) ].

(** The rendered card: the icon, then the heading and the paragraph. *)
Definition card_dom (clsx : list value -> value) (styles : string -> value)
    (svg : string) (title : value) (description : list rnode) : rnode :=
  RHost "div" [ ("className", clsx [VString "col col--4"]) ]
    [ RHost "div" [ ("className", VString "text--center") ]
        [ RExternal svg [ ("className", styles "featureSvg");
                          ("role", VString "img") ] ];
      RHost "div" [ ("className", VString "text--center padding-horiz--md") ]
        [ RExternal "@theme/Heading" [ ("as", VString "h3");
                                       ("children", title) ];
          RHost "p" [] description ] ].

(** The rendered section: the cards in the row, the row in the container. *)
Definition section_dom (styles : string -> value) (cards : list rnode) : rnode :=
  RHost "section" [ ("className", styles "features") ]
    [ RHost "div" [ ("className", VString "container") ]
        [ RHost "div" [ ("className", VString "row") ] cards ] ].

(** The homepage section as the shipped module renders it. *)
Definition homepage_dom (clsx : list value -> value) (styles : string -> value)
    : rnode :=
  section_dom styles
    [ card_dom clsx styles "@site/static/img/undraw_docusaurus_mountain.svg"
        (VString "Organized Study Notes") [RText text_notes];
      card_dom clsx styles "@site/static/img/undraw_docusaurus_tree.svg"
        (VString "Copyable Code & Diagrams") [RText text_code];
      card_dom clsx styles "@site/static/img/undraw_docusaurus_react.svg"
        (VString "Markdown Powered") [RText text_markdown] ].

(** An instance of the two imports, to run the module on: class names as a
    CSS module generates them, and [clsx] on strings, which joins the
    non-empty ones with a space. *)
Definition sample_styles (k : string) : value := VString (k ++ "_a1b2").

Definition sample_clsx (args : list value) : value :=
  VString (String.concat " "
    (omap (fun v => match v with
                    | VString s => if String.eqb s "" then None else Some s
                    | _ => None
                    end) args)).

(** A field that is there and holds a value. *)
Definition supplied (k : string) (rec : object) : bool :=
  match own k rec with
  | Some VUndefined | Some VNull | None => false
  | Some _ => true
  end.

Definition is_Feature (v : value) : bool :=
  match element_type v with VComponent CFeature => true | _ => false end.

(** The arrays of a heap, by address. *)
Definition as_array (o : hobj) : option (list value) :=
  match o with HArray items => Some items | HObject _ => None end.

Definition arrays (h : heap) : gmap loc (list value) := omap as_array h.

(** The element [Feature] returns, written out. *)
Definition card_tree (clsx : list value -> value) (styles : string -> value)
    (Svg title description : value) : value :=
  VElement (VString "div") None
    [ ("className", clsx [VString "col col--4"]);
      ("children", VArray
         [ VElement (VString "div") None
             [ ("className", VString "text--center");
               ("children",
                 VElement Svg None [ ("className", styles "featureSvg");
                                     ("role", VString "img") ]) ];
           VElement (VString "div") None
             [ ("className", VString "text--center padding-horiz--md");
               ("children", VArray
                  [ VElement Heading None [ ("as", VString "h3");
                                            ("children", title) ];
                    VElement (VString "p") None
                      [ ("children", description) ] ]) ] ]) ].

(** The keys [0], [1], ..., [n-1]. *)
Definition index_keys (n : nat) : list (option value) :=
  (fun i => Some (VNumber (Z.of_nat i))) <$> seq 0 n.

(** The keys of the cards of an output, and the strings React compares. *)
Definition card_keys (out : value) : list (option value) :=
  element_key <$> row_cards out.

Definition card_key_texts (out : value) : list (option string) :=
  (fun k => k ≫= key_text) <$> card_keys out.

(** No record of the list has a [key] field that holds a value. *)
Definition keyless (recs : list object) : bool :=
  forallb (fun rec => is_undefined (get "key" rec)) recs.

(** A list whose two records are tagged by the same [key] field. *)
Definition keyed_records : list object :=
  [ [ ("key", VString "notes");
      ("title", VString "Organized Study Notes");
      ("Svg", require_default "@site/static/img/undraw_docusaurus_mountain.svg");
      ("description", fragment (VString text_notes)) ];
    [ ("key", VString "notes");
      ("title", VString "Markdown Powered");
      ("Svg", require_default "@site/static/img/undraw_docusaurus_react.svg");
      ("description", fragment (VString text_markdown)) ] ].

Definition keyed_heap : heap :=
  list_to_map
    ((FeatureList_loc, HArray (VRef <$> [2; 3]%positive))
       :: zip [2; 3]%positive (HObject <$> keyed_records)).

(** A list whose one record has no [Svg]. *)
Definition heap_without_Svg : heap :=
  list_to_map
    [ (FeatureList_loc, HArray [VRef 2%positive]);
      (2%positive, HObject [ ("title", VString "Untitled");
                             ("description", VString "No icon.") ]) ].

(** A second heap for the module: the same list, and one more object, which
    the module does not know of. *)
Definition visited_heap : heap :=
  <[9%positive := HObject [("visits", VNumber 7)]]> module_heap.

(** The first shipped record, and the same with one more field. *)
Definition badged_record : object :=
  [ ("title", VString "Organized Study Notes");
    ("Svg", require_default "@site/static/img/undraw_docusaurus_mountain.svg");
    ("description", fragment (VString text_notes));
    ("badge", VString "new") ].

Definition plain_record : object :=
  [ ("title", VString "Organized Study Notes");
    ("Svg", require_default "@site/static/img/undraw_docusaurus_mountain.svg");
    ("description", fragment (VString text_notes)) ].

(** A computation that leaves the heap as it is. *)
Definition preserves {A} (m : M A) : Prop := forall h, (m h).2 = h.

(** ** More of the module's behaviour: definitions *)

(** What React can render as the type of an element: a tag, a component,
    the fragment. *)
Definition valid_type (v : value) : bool :=
  match v with
  | VString _ | VComponent _ | VFragment => true
  | _ => false
  end.

(** The key line 58 gives the card of a record at an index: the index, unless
    the record has a [key] of its own. *)
Definition card_key (rec : object) (idx : nat) : option value :=
  Some (if is_undefined (get "key" rec) then VNumber (Z.of_nat idx)
        else get "key" rec).

(** The node a record renders to, when its [Svg] is an imported component and
    its description renders (with fuel [n], in heap [h]). *)
Definition card_dom_of (clsx : list value -> value) (styles : string -> value)
    (n : nat) (h : heap) (rec : object) : option rnode :=
  match get "Svg" rec with
  | VComponent (CImport path) =>
      match render clsx styles n (get "description" rec) h with
      | (Ok d, _) => Some (card_dom clsx styles path (get "title" rec) d)
      | (Throw _, _) => None
      end
  | _ => None
  end.

(** A heap whose [FeatureList] is the empty array. *)
Definition empty_list_heap : heap :=
  list_to_map [ (FeatureList_loc, HArray []) ].


(** * The code samples of the study notes *)

(** The Java samples of the notes on generics and on encapsulation.  A
    reference that may be [null] is an [option]; an [int] or a [long] is an
    integer, with the wrap-around written out where the code computes with
    it; a method that may throw returns an [outcome]. *)

Inductive exception : Set :=
| NullPointerException
| IndexOutOfBoundsException
| EmptyStackException.

Inductive outcome (A : Type) : Type :=
| Return (a : A)
| Raise (e : exception).
Arguments Return {A} a.
Arguments Raise {A} e.

(** [long] arithmetic: the result modulo 2^64, in [-2^63, 2^63). *)
Definition wrap64 (z : Z) : Z := ((z + 2 ^ 63) mod 2 ^ 64 - 2 ^ 63)%Z.

(** ** [class Stack<T>] (generics, exercise 1) *)

Module Stack.

(** [private List<T> elements = new ArrayList<>()]: the list, first element
    first.  [T] has [null] among its values when the caller's type has; the
    stack never looks into an element. *)
Record t (T : Type) : Type := { elements : list T }.
Arguments elements {T} _.

Definition new {T} : t T := {| elements := [] |}.

(** [elements.isEmpty()] *)
Definition isEmpty {T} (s : t T) : bool :=
  match elements s with [] => true | _ :: _ => false end.

(** [elements.add(element)] *)
Definition push {T} (element : T) (s : t T) : t T :=
  {| elements := elements s ++ [element] |}.

(** [elements.remove(elements.size() - 1)], behind the guard: the list
    throws [IndexOutOfBoundsException] for an index it does not have. *)
Definition pop {T} (s : t T) : outcome T * t T :=
  if isEmpty s then (Raise EmptyStackException, s)
  else
    let i := length (elements s) - 1 in
    match elements s !! i with
    | Some x => (Return x, {| elements := delete i (elements s) |})
    | None => (Raise IndexOutOfBoundsException, s)
    end.

(** [elements.get(elements.size() - 1)], behind the guard. *)
Definition peek {T} (s : t T) : outcome T :=
  if isEmpty s then Raise EmptyStackException
  else
    match elements s !! (length (elements s) - 1) with
    | Some x => Return x
    | None => Raise IndexOutOfBoundsException
    end.

(** A caller that pushes the elements of a list, first to last, and one that
    pops [n] times and collects what it gets, first popped first. *)
Definition push_all {T} (xs : list T) (s : t T) : t T :=
  foldl (fun s x => push x s) s xs.

Fixpoint pop_times {T} (n : nat) (s : t T) : outcome (list T) * t T :=
  match n with
  | O => (Return [], s)
  | S n' =>
      match pop s with
      | (Return x, s') =>
          match pop_times n' s' with
          | (Return xs, s'') => (Return (x :: xs), s'')
          | (Raise e, s'') => (Raise e, s'')
          end
      | (Raise e, s') => (Raise e, s')
      end
  end.

End Stack.

(** ** [swap] (generics, exercise 2) *)

(** [static <T> void swap(T[] array, int i, int j)]: the array is [null] or
    its elements; the method returns nothing and writes the array, so the
    model returns the elements the array holds afterwards.  The bounds are
    tested left to right, and [array.length] throws on [null]. *)
Definition swap {T} (array : option (list T)) (i j : Z) : outcome (list T) :=
  if (i <? 0)%Z then Raise IndexOutOfBoundsException
  else
    match array with
    | None => Raise NullPointerException
    | Some a =>
        if (i >=? Z.of_nat (length a))%Z || (j <? 0)%Z
           || (j >=? Z.of_nat (length a))%Z
        then Raise IndexOutOfBoundsException
        else
          match a !! Z.to_nat i, a !! Z.to_nat j with
          | Some temp, Some aj =>
              Return (<[Z.to_nat j := temp]> (<[Z.to_nat i := aj]> a))
          | _, _ => Raise IndexOutOfBoundsException
          end
    end.

(** ** [findMax] (generics, the bounded generic method) *)

Section FindMax.

Context {T : Type}.

(** [x.compareTo(y)] of the element type, [x] not [null], [y] [null] or not:
    it returns an [int] or throws. *)
Variable compareTo : T -> option T -> outcome Z.

(** The loop of lines 107 to 111, on the elements from index [i] on, with the
    maximum so far. *)
Fixpoint findMax_loop (rest : list (option T)) (max : option T)
    : outcome (option T) :=
  match rest with
  | [] => Return max
  | ai :: rest' =>
      match ai with
      | None => Raise NullPointerException
      | Some x =>
          match compareTo x max with
          | Raise e => Raise e
          | Return c => findMax_loop rest' (if (c >? 0)%Z then ai else max)
          end
      end
  end.

(** [static <T extends Comparable<T>> T findMax(T[] array)] *)
Definition findMax (array : option (list (option T))) : outcome (option T) :=
  match array with
  | None => Return None
  | Some [] => Return None
  | Some (a0 :: rest) => findMax_loop rest a0
  end.

End FindMax.

(** [Integer.compareTo]: -1, 0 or 1, and [NullPointerException] on [null]. *)
Definition Integer_compareTo (x : Z) (y : option Z) : outcome Z :=
  match y with
  | None => Raise NullPointerException
  | Some y => Return (match (x ?= y)%Z with Lt => -1 | Eq => 0 | Gt => 1 end)%Z
  end.

(** ** [UserRepository] (generics, the implementation of [Repository<User>]) *)

Module UserRepository.

(** [static class User]: [id] is 0 until it is set. *)
Record User : Type := { id : Z; name : option string; email : option string }.

(** The state the methods work on: the [User] objects, by reference (the
    caller and the map share them), and the two fields of the repository,
    [users] (a [HashMap<Long, User>]) and [nextId]. *)
Record state : Type :=
  { objects : positive -> User;
    users : gmap Z positive;
    nextId : Z }.

(** [new UserRepository()] *)
Definition new (objects : positive -> User) : state :=
  {| objects := objects; users := ∅; nextId := 1 |}.

(** [user.getId()] and [user.setId(id)] *)
Definition getId (σ : state) (u : positive) : Z := id (objects σ u).

Definition setId (u : positive) (v : Z) (σ : state) : state :=
  {| objects := fun r => if decide (r = u)
                         then {| id := v;
                                 name := name (objects σ u);
                                 email := email (objects σ u) |}
                         else objects σ r;
     users := users σ;
     nextId := nextId σ |}.

(** [save], lines 180 to 185: [user.setId(nextId++)] for a user without an
    id, then [users.put(user.getId(), user)]. *)
Definition save (user : option positive) (σ : state) : outcome unit * state :=
  match user with
  | None => (Raise NullPointerException, σ)
  | Some u =>
      let σ1 :=
        if (getId σ u =? 0)%Z
        then {| objects := objects (setId u (nextId σ) σ);
                users := users σ;
                nextId := wrap64 (nextId σ + 1) |}
        else σ in
      (Return tt,
       {| objects := objects σ1;
          users := <[getId σ1 u := u]> (users σ1);
          nextId := nextId σ1 |})
  end.

(** [findById]: [users.get(id)], [null] when there is none. *)
Definition findById (k : Z) (σ : state) : option positive := users σ !! k.

(** [delete]: [users.remove(user.getId())]. *)
Definition delete (user : option positive) (σ : state) : outcome unit * state :=
  match user with
  | None => (Raise NullPointerException, σ)
  | Some u =>
      (Return tt,
       {| objects := objects σ;
          users := base.delete (getId σ u) (users σ);
          nextId := nextId σ |})
  end.

(** A caller that saves the users of a list, one after the other. *)
Definition save_all (us : list positive) (σ : state) : state :=
  foldl (fun σ u => (save (Some u) σ).2) σ us.

End UserRepository.

(** The two users [main] saves, at the references 1 and 2. *)
Definition main_users (u : positive) : UserRepository.User :=
  if decide (u = 1%positive)
  then {| UserRepository.id := 0;
          UserRepository.name := Some "John Doe";
          UserRepository.email := Some "john@example.com" |}
  else {| UserRepository.id := 0;
          UserRepository.name := Some "Jane Smith";
          UserRepository.email := Some "jane@example.com" |}.

(** ** [Person] and [Student] (encapsulation) *)

(** [String.trim()]: the string without its leading and trailing characters
    up to U+0020; [String.isEmpty()]. *)
Definition is_space (c : Ascii.ascii) : bool :=
  (Ascii.nat_of_ascii c <=? 32)%nat.

Fixpoint drop_spaces (l : list Ascii.ascii) : list Ascii.ascii :=
  match l with
  | [] => []
  | c :: l' => if is_space c then drop_spaces l' else l
  end.

Definition strip (l : list Ascii.ascii) : list Ascii.ascii :=
  rev (drop_spaces (rev (drop_spaces l))).

Definition trim (s : string) : string :=
  string_of_list_ascii (strip (list_ascii_of_string s)).

Definition String_isEmpty (s : string) : bool :=
  match s with EmptyString => true | String _ _ => false end.

Module Person.

(** [private String name; private int age;]: [null] and 0 until set. *)
Record t : Type := { name : option string; age : Z }.

Definition setName (n : option string) (p : t) : t :=
  match n with
  | Some s =>
      if negb (String_isEmpty (trim s))
      then {| name := Some (trim s); age := age p |}
      else p
  | None => p
  end.

Definition setAge (a : Z) (p : t) : t :=
  if ((a >=? 0) && (a <=? 150))%Z then {| name := name p; age := a |} else p.

(** [new Person(name, age)]: the two setters, on the fresh object. *)
Definition new (n : option string) (a : Z) : t :=
  setAge a (setName n {| name := None; age := 0 |}).

(** What a caller can do to a [Person], and a run of such calls. *)
Inductive call : Type :=
| SetName (n : option string)
| SetAge (a : Z).

Definition do_call (p : t) (c : call) : t :=
  match c with
  | SetName n => setName n p
  | SetAge a => setAge a p
  end.

Definition run (calls : list call) (p : t) : t := foldl do_call p calls.

End Person.

Module Student.

Section Student.

(** [double] is not modelled: the type, the value [0.0] of a field that was
    not set, and the test [gpa >= 0.0 && gpa <= 4.0] are taken as they come. *)
Variable double : Type.
Variable zero : double.
Variable gpa_in_range : double -> bool.

Record t : Type := { id : Z; name : option string; age : Z; gpa : double }.

Definition setName (n : option string) (s : t) : t :=
  match n with
  | Some x =>
      if negb (String_isEmpty (trim x))
      then {| id := id s; name := Some (trim x); age := age s; gpa := gpa s |}
      else s
  | None => s
  end.

Definition age_in_range (a : Z) : bool := ((a >? 0) && (a <? 150))%Z.

Definition setAge (a : Z) (s : t) : t :=
  if age_in_range a
  then {| id := id s; name := name s; age := a; gpa := gpa s |}
  else s.

Definition setGpa (g : double) (s : t) : t :=
  if gpa_in_range g
  then {| id := id s; name := name s; age := age s; gpa := g |}
  else s.

(** [new Student(id, name, age, gpa)], lines 111 to 116. *)
Definition new (i : Z) (n : option string) (a : Z) (g : double) : t :=
  setGpa g (setAge a (setName n
    {| id := i; name := None; age := 0; gpa := zero |})).

Inductive call : Type :=
| SetName (n : option string)
| SetAge (a : Z)
| SetGpa (g : double).

Definition do_call (s : t) (c : call) : t :=
  match c with
  | SetName n => setName n s
  | SetAge a => setAge a s
  | SetGpa g => setGpa g s
  end.

Definition run (calls : list call) (s : t) : t := foldl do_call s calls.

(** The ages a run of calls hands to [setAge], in the order of the calls. *)
Definition ages (calls : list call) : list Z :=
  omap (fun c => match c with SetAge a => Some a | _ => None end) calls.

End Student.

Arguments id {double} _.
Arguments name {double} _.
Arguments age {double} _.
Arguments gpa {double} _.
Arguments setName {double} _ _.
Arguments setAge {double} _ _.
Arguments setGpa {double} _ _ _.
Arguments new {double} _ _ _ _ _ _.
Arguments SetName {double} _.
Arguments SetAge {double} _.
Arguments SetGpa {double} _.
Arguments do_call {double} _ _ _.
Arguments run {double} _ _ _.
Arguments ages {double} _.

End Student.

(** * Properties *)

(** ** Computations that leave the heap as it is *)

Lemma preserves_ret {A} (a : A) : preserves (ret a).
Proof. by intros h. Qed.

Lemma preserves_throw {A} (e : error) : preserves (@throw A e).
Proof. by intros h. Qed.

Lemma preserves_bind {A B} (m : M A) (k : A -> M B) :
  preserves m -> (forall a, preserves (k a)) -> preserves (bind m k).
Proof.
  intros Hm Hk h. unfold bind. specialize (Hm h).
  destruct (m h) as [[a|e] h']; simpl in *; subst h'; [apply Hk | done].
Qed.

Lemma preserves_traverse {A B} (f : A -> M B) (l : list A) :
  (forall x, preserves (f x)) -> preserves (traverse f l).
Proof.
  intros Hf. induction l as [|x l IH]; simpl.
  - apply preserves_ret.
  - apply preserves_bind; [apply Hf|]. intros y.
    apply preserves_bind; [apply IH|]. intros ys. apply preserves_ret.
Qed.

Lemma preserves_spread v : preserves (spread v).
Proof. intros h. unfold spread. by destruct (own_fields h v). Qed.

Lemma preserves_array_get a k : preserves (array_get a k).
Proof. by intros h. Qed.

Lemma preserves_map_loop a cb n :
  (forall x i, preserves (cb x i)) -> forall k, preserves (map_loop a cb k n).
Proof.
  intros Hcb. induction n as [|n IH]; intros k; simpl.
  - apply preserves_ret.
  - apply preserves_bind; [apply preserves_array_get|]. intros x.
    apply preserves_bind; [apply Hcb|]. intros y.
    apply preserves_bind; [apply IH|]. intros ys. apply preserves_ret.
Qed.

Lemma preserves_Array_map a cb :
  (forall x i, preserves (cb x i)) -> preserves (Array_map a cb).
Proof.
  intros Hcb h. unfold Array_map. destruct (items_of h a) as [items|]; [|done].
  apply (preserves_bind (map_loop a cb 0 (length items))).
  - by apply preserves_map_loop.
  - intros ys. apply preserves_ret.
Qed.

Lemma preserves_card props idx : preserves (card props idx).
Proof.
  apply preserves_bind; [apply preserves_spread|]. intros c. apply preserves_ret.
Qed.

Lemma preserves_HomepageFeatures styles props :
  preserves (HomepageFeatures styles props).
Proof.
  apply preserves_bind.
  - apply preserves_Array_map, preserves_card.
  - intros cards. apply preserves_ret.
Qed.

Lemma preserves_render clsx styles fuel :
  forall v, preserves (render clsx styles fuel v).
Proof.
  induction fuel as [|n IH]; intros v; simpl; [apply preserves_throw|].
  destruct v as [| | | | | | |l|items|type key props];
    try apply preserves_ret.
  - intros h. destruct (h !! l) as [[fields|items]|]; [done| |done].
    apply (preserves_bind (traverse (render clsx styles n) items)).
    + by apply preserves_traverse.
    + intros rs. apply preserves_ret.
  - apply preserves_bind; [by apply preserves_traverse|].
    intros rs. apply preserves_ret.
  - destruct type as [| | | |tag|[| |path]| | | |];
      try apply preserves_throw; try apply IH; try apply preserves_ret.
    + apply preserves_bind; [apply IH|]. intros kids. apply preserves_ret.
    + apply preserves_bind; [apply preserves_HomepageFeatures|]. apply IH.
Qed.

(** ** What [HomepageFeatures] returns *)

Lemma read_list_Some h a recs :
  read_list h a = Some recs <->
  exists items, items_of h a = Some items /\
    Forall2 (fun v r => own_fields h v = Some r) items recs.
Proof.
  unfold read_list. split.
  - destruct (items_of h a) as [items|]; simpl; [|done].
    intros H. exists items. split; [done|]. by apply mapM_Some.
  - intros (items & -> & H). simpl. by apply mapM_Some.
Qed.

Lemma card_Some h v r idx :
  own_fields h v = Some r -> card v idx h = (Ok (card_element r idx), h).
Proof. intros H. unfold card, bind, spread. by rewrite H. Qed.

(** The loop of [map] over an array of records, from index [k] on. *)
Lemma map_loop_card h a items :
  items_of h a = Some items ->
  forall suffix recs,
    Forall2 (fun v r => own_fields h v = Some r) suffix recs ->
    forall k, drop k items = suffix ->
    map_loop a card k (length suffix) h
    = (Ok (imap (fun i r => card_element r (k + i)) recs), h).
Proof.
  intros Ha suffix recs HF.
  induction HF as [|v r suffix recs Hv HF IH]; intros k Hd; [done|].
  assert (Hk : items !! k = Some v).
  { rewrite <- (Nat.add_0_r k), <- lookup_drop, Hd. done. }
  assert (Hd' : drop (S k) items = suffix).
  { replace (S k) with (k + 1) by lia. by rewrite <- drop_drop, Hd. }
  cbn [length map_loop]. unfold bind at 1. unfold array_get.
  rewrite Ha. cbn [mbind option_bind]. rewrite Hk. cbn [default id].
  unfold bind at 1. rewrite (card_Some h v r k Hv).
  unfold bind at 1. rewrite (IH (S k) Hd'). unfold ret.
  rewrite imap_cons, Nat.add_0_r. do 3 f_equal.
  apply imap_ext. intros i x _. simpl. f_equal. lia.
Qed.

Lemma HomepageFeatures_spec styles props h recs :
  read_FeatureList h = Some recs ->
  HomepageFeatures styles props h
  = (Ok (section_of styles (imap (fun i r => card_element r i) recs)), h).
Proof.
  intros (items & Ha & HF)%read_list_Some.
  unfold HomepageFeatures, bind at 1. unfold Array_map. rewrite Ha.
  unfold bind at 1. rewrite (map_loop_card h _ items Ha items recs HF 0 eq_refl).
  reflexivity.
Qed.

Lemma row_cards_section styles cards : row_cards (section_of styles cards) = cards.
Proof. reflexivity. Qed.

Lemma read_FeatureList_module : read_FeatureList module_heap = Some FeatureList_records.
Proof. reflexivity. Qed.

(** ** The props of a card *)

Lemma own_filter_ne (k : string) (o : object) :
  k <> "key" -> own k (filter (fun p => p.1 ≠ "key") o) = own k o.
Proof.
  intros Hk. induction o as [|[k' v] o IH]; [done|].
  rewrite filter_cons. simpl. destruct (decide (k' ≠ "key")) as [Hne|Heq]; simpl.
  - destruct (String.eqb k k'); [done | apply IH].
  - apply dec_stable in Heq. subst k'.
    destruct (String.eqb_spec k "key") as [->|_]; [done | apply IH].
Qed.

Lemma get_card_element (k : string) (rec : object) (idx : nat) :
  k <> "key" -> get k (element_props (card_element rec idx)) = get k rec.
Proof. intros Hk. unfold get. simpl. by rewrite own_filter_ne. Qed.

Lemma is_Feature_card_element rec idx : is_Feature (card_element rec idx) = true.
Proof. reflexivity. Qed.

Lemma cards_all_Feature (recs : list object) :
  Forall (fun c => is_Feature c = true) (imap (fun i r => card_element r i) recs).
Proof.
  apply Forall_lookup. intros i c Hi. rewrite list_lookup_imap in Hi.
  destruct (recs !! i); simpl in Hi; [|done]. by injection Hi as <-.
Qed.

(** ** The claims *)

(** C1. [HomepageFeatures] maps the array [FeatureList] to cards: the row of
    its output holds one [Feature] element per element of the array, in the
    order of the array, and the props of the card at an index hold the
    [title], the [Svg] and the [description] of the record at that index. *)
Theorem HomepageFeatures_maps_FeatureList styles props h recs :
  read_FeatureList h = Some recs ->
  exists out,
    HomepageFeatures styles props h = (Ok out, h) /\
    length (row_cards out) = length recs /\
    forall i rec, recs !! i = Some rec ->
      exists card,
        row_cards out !! i = Some card /\
        is_Feature card = true /\
        get "title" (element_props card) = get "title" rec /\
        get "Svg" (element_props card) = get "Svg" rec /\
        get "description" (element_props card) = get "description" rec.
Proof.
  intros Hrecs. eexists. split; [by apply HomepageFeatures_spec|].
  rewrite row_cards_section. split; [by rewrite length_imap|].
  intros i rec Hi. exists (card_element rec i).
  split; [by rewrite list_lookup_imap, Hi|].
  split; [done|]. by rewrite !get_card_element.
Qed.

Lemma HomepageFeatures_maps_FeatureList_witness :
  read_FeatureList module_heap = Some FeatureList_records /\
  exists out,
    HomepageFeatures sample_styles [] module_heap = (Ok out, module_heap) /\
    length (row_cards out) = length FeatureList_records /\
    forall i rec, FeatureList_records !! i = Some rec ->
      exists card,
        row_cards out !! i = Some card /\
        is_Feature card = true /\
        get "title" (element_props card) = get "title" rec /\
        get "Svg" (element_props card) = get "Svg" rec /\
        get "description" (element_props card) = get "description" rec.
Proof.
  split; [reflexivity|].
  apply (HomepageFeatures_maps_FeatureList sample_styles [] module_heap
           FeatureList_records).
  reflexivity.
Defined.

(** C2. Each record of [FeatureList] has a [title], an [Svg] and a
    [description], each of them present and holding a value: the title a
    string, the icon a component, the description an element.  The array
    has three records. *)
Theorem FeatureList_records_supplied :
  read_FeatureList module_heap = Some FeatureList_records /\
  length FeatureList_records = 3 /\
  Forall (fun rec =>
            supplied "title" rec = true /\
            supplied "Svg" rec = true /\
            supplied "description" rec = true /\
            (exists s, own "title" rec = Some (VString s)) /\
            (exists c, own "Svg" rec = Some (VComponent c)) /\
            (exists t k p, own "description" rec = Some (VElement t k p)))
         FeatureList_records.
Proof.
  split; [reflexivity|]. split; [reflexivity|].
  repeat constructor; simpl; eauto.
Qed.

(** ** Rendering the shipped module *)

(** With fuel for the thirteen levels of the tree the render of the module
    is the homepage section, and the heap is the one it started from; with
    less, the model stops before the renderer is done. *)
Lemma render_root_module_heap clsx styles n :
  render_root clsx styles n module_heap
  = (if Nat.leb 13 n then Ok [homepage_dom clsx styles] else Throw OutOfFuel,
     module_heap).
Proof.
  do 13 (destruct n as [|n]; [vm_compute; reflexivity|]).
  vm_compute. reflexivity.
Qed.

(** The error branch is there: a record without [Svg] gives an element whose
    type is [undefined], and the renderer throws on it. *)
Lemma render_without_Svg_throws clsx styles k :
  (render_root clsx styles (10 + k) heap_without_Svg).1
  = Throw (InvalidElementType VUndefined).
Proof. vm_compute. reflexivity. Qed.

(** C3. Rendering [HomepageFeatures] on the shipped list does not fail: each
    record supplies the three props [Feature] takes, and the render, given
    fuel for the depth of the tree, returns the section; the renderer's
    error for an element without a type is never reached. *)
Theorem render_module_never_fails clsx styles n :
  forallb (fun rec => supplied "Svg" rec && supplied "title" rec
                      && supplied "description" rec) FeatureList_records = true /\
  (render_root clsx styles (13 + n) module_heap).1
    = Ok [homepage_dom clsx styles] /\
  (render_root clsx styles n module_heap).1
    = if Nat.leb 13 n then Ok [homepage_dom clsx styles] else Throw OutOfFuel.
Proof.
  split; [reflexivity|]. split; by rewrite render_root_module_heap.
Qed.

(** C4. [FeatureList] holds three records, and [HomepageFeatures] gives
    three [Feature] elements, which render to three cards in the row. *)
Theorem HomepageFeatures_three_cards clsx styles props n :
  (exists recs, read_FeatureList module_heap = Some recs /\ length recs = 3) /\
  (exists out,
     HomepageFeatures styles props module_heap = (Ok out, module_heap) /\
     length (row_cards out) = 3 /\
     forallb is_Feature (row_cards out) = true) /\
  (exists c1 c2 c3,
     render_root clsx styles (13 + n) module_heap
     = (Ok [section_dom styles [c1; c2; c3]], module_heap)).
Proof.
  split; [by exists FeatureList_records|]. split.
  - eexists. split; [apply HomepageFeatures_spec, read_FeatureList_module|].
    by rewrite row_cards_section.
  - do 3 eexists. rewrite render_root_module_heap. reflexivity.
Qed.

(** ** Two heaps that hold the same list *)

Section TwoHeaps.

Variables h1 h2 : heap.

Lemma bind_same {A B} (m : M A) (k : A -> M B) :
  preserves m -> (m h1).1 = (m h2).1 ->
  (forall a, (k a h1).1 = (k a h2).1) ->
  (bind m k h1).1 = (bind m k h2).1.
Proof.
  intros Hp Hm Hk. unfold bind. pose proof (Hp h1) as E1. pose proof (Hp h2) as E2.
  destruct (m h1) as [r1 h1'], (m h2) as [r2 h2']; simpl in *. subst.
  destruct r2; [apply Hk | done].
Qed.

Lemma traverse_same {A B} (f : A -> M B) (l : list A) :
  (forall x, preserves (f x)) -> (forall x, (f x h1).1 = (f x h2).1) ->
  (traverse f l h1).1 = (traverse f l h2).1.
Proof.
  intros Hp Hf. induction l as [|x l IH]; [done|]. simpl.
  apply bind_same; [apply Hp | apply Hf |]. intros y.
  apply bind_same; [by apply preserves_traverse | apply IH | done].
Qed.

Variable recs : list object.
Hypothesis list1 : read_FeatureList h1 = Some recs.
Hypothesis list2 : read_FeatureList h2 = Some recs.

Lemma HomepageFeatures_same styles props :
  (HomepageFeatures styles props h1).1 = (HomepageFeatures styles props h2).1.
Proof.
  by rewrite (HomepageFeatures_spec _ _ _ _ list1),
             (HomepageFeatures_spec _ _ _ _ list2).
Qed.

Hypothesis same_arrays : arrays h1 = arrays h2.

Lemma as_array_same l : h1 !! l ≫= as_array = h2 !! l ≫= as_array.
Proof. unfold arrays in same_arrays. by rewrite <- !lookup_omap, same_arrays. Qed.

Lemma render_same clsx styles fuel :
  forall v, (render clsx styles fuel v h1).1 = (render clsx styles fuel v h2).1.
Proof.
  induction fuel as [|n IH]; intros v; [done|]. simpl.
  destruct v as [| | | | | | |l|items|type key props]; try done.
  - pose proof (as_array_same l) as Hl.
    destruct (h1 !! l) as [[f1|i1]|], (h2 !! l) as [[f2|i2]|];
      simpl in Hl; try done.
    injection Hl as ->.
    apply (bind_same (traverse (render clsx styles n) i2)); [| |done].
    + apply preserves_traverse, preserves_render.
    + apply traverse_same; [apply preserves_render | apply IH].
  - apply bind_same; [| |done].
    + apply preserves_traverse, preserves_render.
    + apply traverse_same; [apply preserves_render | apply IH].
  - destruct type as [| | | |tag|[| |path]| | | |]; try done; try apply IH.
    + apply bind_same; [apply preserves_render | apply IH | done].
    + apply bind_same;
        [apply preserves_HomepageFeatures | apply HomepageFeatures_same | apply IH].
Qed.

End TwoHeaps.

(** C5. [HomepageFeatures] is a function of the list and of the imports:
    on two heaps that hold the same list of records it returns the same
    element, and, the arrays of the two heaps being the same, the render
    produces the same output; a second render, run after a first one, gives
    what the first one gave. *)
Theorem HomepageFeatures_deterministic clsx styles h1 h2 recs :
  read_FeatureList h1 = Some recs ->
  read_FeatureList h2 = Some recs ->
  arrays h1 = arrays h2 ->
  (forall props,
     (HomepageFeatures styles props h1).1 = (HomepageFeatures styles props h2).1) /\
  (forall n,
     (render_root clsx styles n h1).1 = (render_root clsx styles n h2).1) /\
  (forall n,
     (render_root clsx styles n (render_root clsx styles n h1).2).1
     = (render_root clsx styles n h1).1).
Proof.
  intros H1 H2 Ha. split; [|split].
  - intros props. by apply (HomepageFeatures_same h1 h2 recs).
  - intros n. by apply (render_same h1 h2 recs).
  - intros n. unfold render_root. by rewrite preserves_render.
Qed.

Lemma HomepageFeatures_deterministic_witness :
  read_FeatureList module_heap = Some FeatureList_records /\
  read_FeatureList visited_heap = Some FeatureList_records /\
  arrays module_heap = arrays visited_heap /\
  (forall n,
     (render_root sample_clsx sample_styles n module_heap).1
     = (render_root sample_clsx sample_styles n visited_heap).1).
Proof.
  split; [reflexivity|]. split; [reflexivity|]. split; [reflexivity|].
  apply (HomepageFeatures_deterministic sample_clsx sample_styles
           module_heap visited_heap FeatureList_records); reflexivity.
Defined.

(** ** Counting the rendered cards *)

Lemma render_Feature_singleton clsx styles m props h x h' :
  render clsx styles m (Feature clsx styles props) h = (Ok x, h') -> length x = 1.
Proof.
  destruct m as [|m]; [done|]. simpl. unfold bind.
  destruct (render clsx styles m _ h) as [[kids|e] h'']; [|done].
  by intros [= <- _].
Qed.

Lemma render_card_singleton clsx styles m r i h x h' :
  render clsx styles m (card_element r i) h = (Ok x, h') -> length x = 1.
Proof.
  destruct m as [|m]; [done|]. unfold card_element, jsx. cbn [render].
  apply render_Feature_singleton.
Qed.

Lemma traverse_singletons {A} (f : A -> M (list rnode)) (l : list A) :
  (forall x h r h', x ∈ l -> f x h = (Ok r, h') -> length r = 1) ->
  forall h rs h', traverse f l h = (Ok rs, h') -> length (concat rs) = length l.
Proof.
  induction l as [|a l IH]; intros Hf h rs h'; simpl.
  - by intros [= <- _].
  - unfold bind at 1. destruct (f a h) as [[r|e] h1] eqn:Ha; [|done].
    unfold bind at 1. destruct (traverse f l h1) as [[rs'|e] h2] eqn:Hl; [|done].
    intros [= <- _]. simpl. rewrite length_app.
    rewrite (Hf a h r h1), (IH (fun x h r h' Hx =>
               Hf x h r h' (list_elem_of_further _ _ _ Hx)) h1 rs' h2);
      [done..| |done].
    by left.
Qed.

Lemma children_of_classed v c :
  children_of [("className", v); ("children", c)] = c.
Proof. reflexivity. Qed.

(** A render of the section that returns has one node per record in the row. *)
Lemma render_root_cards clsx styles h recs n dom h' :
  read_FeatureList h = Some recs ->
  render_root clsx styles n h = (Ok dom, h') ->
  exists cards, dom = [section_dom styles cards] /\ length cards = length recs.
Proof.
  intros Hrecs. unfold render_root.
  destruct n as [|n]; [done|]. unfold jsx. cbn [render is_undefined hasValidKey].
  unfold bind at 1. rewrite (HomepageFeatures_spec _ _ _ _ Hrecs).
  unfold section_of.
  do 3 (destruct n as [|n]; [done|]; cbn [render]; rewrite children_of_classed;
        unfold bind at 1).
  destruct n as [|n]; [done|]. cbn [render]. unfold bind at 1.
  destruct (traverse _ _ h) as [[rs|e] h1] eqn:Hrs; [|done].
  intros [= <- _]. exists (concat rs). split; [reflexivity|].
  rewrite <- (length_imap (fun i r => card_element r i) recs).
  apply (traverse_singletons _ _) in Hrs; [done|].
  intros c h0 r h0' [i Hi]%list_elem_of_lookup. rewrite list_lookup_imap in Hi.
  destruct (recs !! i) as [rec|]; simpl in Hi; [|done]. injection Hi as <-.
  apply render_card_singleton.
Qed.

(** C6. For every list of records the array may hold, the row of the output
    of [HomepageFeatures] has as many elements as the list, all of them
    [Feature] elements; and a render of the section that returns has as many
    card nodes in its row as the list has records. *)
Theorem HomepageFeatures_card_count clsx styles props h recs :
  read_FeatureList h = Some recs ->
  (exists out,
     HomepageFeatures styles props h = (Ok out, h) /\
     length (row_cards out) = length recs /\
     Forall (fun c => is_Feature c = true) (row_cards out)) /\
  (forall n dom h',
     render_root clsx styles n h = (Ok dom, h') ->
     exists cards, dom = [section_dom styles cards] /\
                   length cards = length recs).
Proof.
  intros Hrecs. split.
  - eexists. split; [by apply HomepageFeatures_spec|].
    rewrite row_cards_section. split; [by rewrite length_imap|].
    apply cards_all_Feature.
  - intros n dom h'. by apply render_root_cards.
Qed.

Lemma HomepageFeatures_card_count_witness :
  read_FeatureList module_heap = Some FeatureList_records /\
  (exists out,
     HomepageFeatures sample_styles [] module_heap = (Ok out, module_heap) /\
     length (row_cards out) = length FeatureList_records /\
     Forall (fun c => is_Feature c = true) (row_cards out)) /\
  (forall n dom h',
     render_root sample_clsx sample_styles n module_heap = (Ok dom, h') ->
     exists cards, dom = [section_dom sample_styles cards] /\
                   length cards = length FeatureList_records).
Proof.
  split; [reflexivity|].
  apply (HomepageFeatures_card_count sample_clsx sample_styles [] module_heap
           FeatureList_records).
  reflexivity.
Defined.

(** C7. A card is the icon, the title and the description: [Feature] returns
    a [div] that holds the [Svg] element with the role [img], and then the
    title in a [Heading] rendered as [h3] and the description in a [p]; it
    renders to these three in that order; and the cards of the shipped list
    are the children of the row of the section. *)
Theorem Feature_card_layout clsx styles props path title description n h :
  Feature clsx styles props
  = card_tree clsx styles (get "Svg" props) (get "title" props)
      (get "description" props) /\
  render clsx styles (5 + n)
    (card_tree clsx styles (require_default path) title description) h
  = (let! d := render clsx styles n description in
     ret [card_dom clsx styles path title d]) h /\
  (render_root clsx styles (13 + n) module_heap).1
  = Ok [section_dom styles
          [ card_dom clsx styles "@site/static/img/undraw_docusaurus_mountain.svg"
              (VString "Organized Study Notes") [RText text_notes];
            card_dom clsx styles "@site/static/img/undraw_docusaurus_tree.svg"
              (VString "Copyable Code & Diagrams") [RText text_code];
            card_dom clsx styles "@site/static/img/undraw_docusaurus_react.svg"
              (VString "Markdown Powered") [RText text_markdown] ]].
Proof.
  split; [reflexivity|]. split.
  - simpl. unfold bind, ret.
    change (children_of [("children", description)]) with description.
    destruct (render clsx styles n description h) as [[d|e] h']; reflexivity.
  - by rewrite render_root_module_heap.
Qed.

(** C8. A render leaves the heap as it found it: the array [FeatureList] and
    each of its records are, after [HomepageFeatures] has run and after the
    whole section has rendered, what they were before. *)
Theorem render_leaves_FeatureList_unchanged clsx styles props n h :
  (HomepageFeatures styles props h).2 = h /\
  (render_root clsx styles n h).2 = h /\
  (render_root clsx styles n h).2 !! FeatureList_loc = h !! FeatureList_loc /\
  read_FeatureList (render_root clsx styles n h).2 = read_FeatureList h.
Proof.
  unfold render_root.
  rewrite preserves_HomepageFeatures, !preserves_render. done.
Qed.

(** ** Keys *)

Lemma element_key_card_element (rec : object) (idx : nat) :
  is_undefined (get "key" rec) = true ->
  element_key (card_element rec idx) = Some (VNumber (Z.of_nat idx)).
Proof. intros H. unfold card_element, jsx, hasValidKey. by rewrite H. Qed.

Lemma card_keys_keyless styles (recs : list object) :
  keyless recs = true ->
  card_keys (section_of styles (imap (fun i r => card_element r i) recs))
  = index_keys (length recs).
Proof.
  intros Hk. unfold card_keys, index_keys.
  rewrite row_cards_section, fmap_imap, <- imap_seq_0.
  apply imap_ext. intros i r Hi. simpl.
  apply element_key_card_element.
  unfold keyless in Hk. rewrite forallb_forall in Hk.
  apply Hk, list_elem_of_In, list_elem_of_lookup. eauto.
Qed.

Lemma key_texts_index_keys (n : nat) :
  (fun k => k ≫= key_text) <$> index_keys n
  = (fun i => Some (pretty (Z.of_nat i))) <$> seq 0 n.
Proof. unfold index_keys. rewrite <- list_fmap_compose. done. Qed.

(** C9, as stated, fails where the records carry a [key] of their own: the
    spread comes after [key={idx}], so the two cards of [keyed_heap] both
    get the key ["notes"], not [0] and [1]. *)
Lemma card_keys_counterexample :
  read_FeatureList keyed_heap = Some keyed_records /\
  exists out,
    HomepageFeatures sample_styles [] keyed_heap = (Ok out, keyed_heap) /\
    card_keys out = [Some (VString "notes"); Some (VString "notes")] /\
    card_keys out <> index_keys (length keyed_records) /\
    ~ NoDup (card_keys out).
Proof.
  split; [reflexivity|]. eexists. split; [reflexivity|].
  split; [reflexivity|]. split; [discriminate|].
  intros Hnd. change (NoDup [Some (VString "notes"); Some (VString "notes")]) in Hnd.
  apply NoDup_cons in Hnd as [Hin _]. apply Hin. by left.
Qed.

(** C9, amended. For every list whose records have no [key] field of their
    own, the keys of the [Feature] elements are the indices 0 to N-1, in
    order, and they are pairwise distinct, as values and as the strings React
    compares. *)
Theorem card_keys_are_indices styles props h recs :
  read_FeatureList h = Some recs ->
  keyless recs = true ->
  exists out,
    HomepageFeatures styles props h = (Ok out, h) /\
    card_keys out = index_keys (length recs) /\
    NoDup (card_keys out) /\
    NoDup (card_key_texts out).
Proof.
  intros Hrecs Hk. eexists. split; [by apply HomepageFeatures_spec|].
  unfold card_key_texts. rewrite (card_keys_keyless _ _ Hk), key_texts_index_keys.
  split; [done|]. split.
  - apply NoDup_fmap_2; [|apply NoDup_seq].
    intros i j [= Hij]. lia.
  - apply NoDup_fmap_2; [|apply NoDup_seq].
    intros i j [= Hij]. apply (inj pretty) in Hij. lia.
Qed.

Lemma card_keys_are_indices_witness :
  read_FeatureList module_heap = Some FeatureList_records /\
  keyless FeatureList_records = true /\
  exists out,
    HomepageFeatures sample_styles [] module_heap = (Ok out, module_heap) /\
    card_keys out = index_keys (length FeatureList_records) /\
    NoDup (card_keys out) /\
    NoDup (card_key_texts out).
Proof.
  split; [reflexivity|]. split; [reflexivity|].
  apply (card_keys_are_indices sample_styles [] module_heap FeatureList_records);
    reflexivity.
Defined.

(** ** Fields [Feature] does not read *)

Lemma Feature_ext clsx styles (p1 p2 : object) :
  get "Svg" p1 = get "Svg" p2 ->
  get "title" p1 = get "title" p2 ->
  get "description" p1 = get "description" p2 ->
  Feature clsx styles p1 = Feature clsx styles p2.
Proof. intros HS Ht Hd. unfold Feature. by rewrite HS, Ht, Hd. Qed.

(** C10. The card depends on the [Svg], the [title] and the [description] of
    its record and on nothing else in it: two records that agree on these
    three fields give the same [Feature] output, and their cards, at whatever
    index each stands, render to the same nodes. *)
Theorem Feature_ignores_other_fields clsx styles (r1 r2 : object) :
  get "Svg" r1 = get "Svg" r2 ->
  get "title" r1 = get "title" r2 ->
  get "description" r1 = get "description" r2 ->
  Feature clsx styles r1 = Feature clsx styles r2 /\
  forall n h i j,
    render clsx styles n (card_element r1 i) h
    = render clsx styles n (card_element r2 j) h.
Proof.
  intros HS Ht Hd. split; [by apply Feature_ext|].
  intros [|n] h i j; [done|].
  unfold card_element, jsx. cbn [render].
  f_equal. apply Feature_ext; unfold get; by rewrite !own_filter_ne.
Qed.

Lemma Feature_ignores_other_fields_witness :
  get "Svg" plain_record = get "Svg" badged_record /\
  get "title" plain_record = get "title" badged_record /\
  get "description" plain_record = get "description" badged_record /\
  plain_record <> badged_record /\
  Feature sample_clsx sample_styles plain_record
  = Feature sample_clsx sample_styles badged_record /\
  forall n h i j,
    render sample_clsx sample_styles n (card_element plain_record i) h
    = render sample_clsx sample_styles n (card_element badged_record j) h.
Proof.
  split; [reflexivity|]. split; [reflexivity|]. split; [reflexivity|].
  split; [discriminate|].
  apply (Feature_ignores_other_fields sample_clsx sample_styles
           plain_record badged_record); reflexivity.
Defined.

(** * More of the module's behaviour *)

(** ** The render of any list *)

Lemma render_card_tree clsx styles path title description n h :
  render clsx styles (5 + n)
    (card_tree clsx styles (require_default path) title description) h
  = (let! d := render clsx styles n description in
     ret [card_dom clsx styles path title d]) h.
Proof.
  simpl. unfold bind, ret.
  change (children_of [("children", description)]) with description.
  destruct (render clsx styles n description h) as [[d|e] h']; reflexivity.
Qed.

Lemma render_card_element clsx styles n h rec idx node :
  card_dom_of clsx styles n h rec = Some node ->
  render clsx styles (6 + n) (card_element rec idx) h = (Ok [node], h).
Proof.
  unfold card_dom_of. intros Hnode.
  destruct (get "Svg" rec) as [| | | | |[| |path]| | | |] eqn:HS; try done.
  pose proof (preserves_render clsx styles n (get "description" rec) h) as Hh.
  destruct (render clsx styles n (get "description" rec) h) as [[d|e] h'] eqn:Hd;
    [|done].
  simpl in Hh. subst h'. injection Hnode as <-.
  change (6 + n) with (S (5 + n)). unfold card_element, jsx. cbn [render].
  change (Feature clsx styles ?p)
    with (card_tree clsx styles (get "Svg" p) (get "title" p) (get "description" p)).
  unfold get at 1 2 3. rewrite !own_filter_ne by done. fold (get "Svg" rec).
  fold (get "title" rec). fold (get "description" rec). rewrite HS.
  change (VComponent (CImport path)) with (require_default path).
  rewrite render_card_tree. unfold bind. by rewrite Hd.
Qed.

Lemma concat_singletons {A} (l : list A) : concat ((fun x => [x]) <$> l) = l.
Proof. induction l as [|x l IH]; [done|]. rewrite fmap_cons. simpl. by f_equal. Qed.

Lemma traverse_card_elements clsx styles n h recs cards :
  Forall2 (fun rec node => card_dom_of clsx styles n h rec = Some node) recs cards ->
  forall k,
    traverse (render clsx styles (6 + n))
      (imap (fun i r => card_element r (k + i)) recs) h
    = (Ok ((fun c => [c]) <$> cards), h).
Proof.
  induction 1 as [|rec node recs cards Hnode _ IH]; intros k; [done|].
  rewrite imap_cons. cbn [traverse]. unfold bind at 1.
  rewrite (render_card_element _ _ _ _ _ _ _ Hnode).
  unfold bind at 1.
  rewrite (imap_ext _ (fun i r => card_element r (S k + i))); [|intros; simpl; f_equal; lia].
  by rewrite IH.
Qed.

(** The render of the section, given the render of its cards. *)
Lemma render_section_of clsx styles m h recs rs :
  read_FeatureList h = Some recs ->
  traverse (render clsx styles m) (imap (fun i r => card_element r i) recs) h
  = (Ok rs, h) ->
  render_root clsx styles (S (S (S (S (S m))))) h
  = (Ok [section_dom styles (concat rs)], h).
Proof.
  intros Hrecs Hrs. unfold render_root, jsx.
  cbn [render is_undefined hasValidKey].
  unfold bind at 1. rewrite (HomepageFeatures_spec _ _ _ _ Hrecs).
  unfold section_of.
  do 3 (cbn [render]; rewrite children_of_classed; unfold bind at 1).
  cbn [render]. unfold bind at 1. rewrite Hrs. reflexivity.
Qed.

(** X1. Whatever the list, if each record has an imported component for
    [Svg] and a description that renders, the section renders, and its row
    holds the card of each record, in the order of the list: the icon of the
    record, its title under the heading, its description in the paragraph. *)
Theorem render_any_list clsx styles n h recs cards :
  read_FeatureList h = Some recs ->
  mapM (card_dom_of clsx styles n h) recs = Some cards ->
  render_root clsx styles (11 + n) h = (Ok [section_dom styles cards], h).
Proof.
  intros Hrecs Hcards%mapM_Some.
  pose proof (traverse_card_elements _ _ _ _ _ _ Hcards 0) as Hrs.
  rewrite <- (concat_singletons cards).
  exact (render_section_of clsx styles (6 + n) h recs _ Hrecs Hrs).
Qed.

Lemma render_any_list_witness :
  read_FeatureList module_heap = Some FeatureList_records /\
  mapM (card_dom_of sample_clsx sample_styles 2 module_heap) FeatureList_records
  = Some [ card_dom sample_clsx sample_styles
             "@site/static/img/undraw_docusaurus_mountain.svg"
             (VString "Organized Study Notes") [RText text_notes];
           card_dom sample_clsx sample_styles
             "@site/static/img/undraw_docusaurus_tree.svg"
             (VString "Copyable Code & Diagrams") [RText text_code];
           card_dom sample_clsx sample_styles
             "@site/static/img/undraw_docusaurus_react.svg"
             (VString "Markdown Powered") [RText text_markdown] ] /\
  render_root sample_clsx sample_styles 13 module_heap
  = (Ok [homepage_dom sample_clsx sample_styles], module_heap).
Proof.
  split; [reflexivity|]. split; [vm_compute; reflexivity|].
  apply (render_any_list sample_clsx sample_styles 2 module_heap
           FeatureList_records); vm_compute; reflexivity.
Defined.

(** X2. An empty [FeatureList] is no error: [HomepageFeatures] returns the
    section with an empty row, and the render gives the section, the
    container and the row with no card in it. *)
Theorem render_empty_list clsx styles props n h :
  read_FeatureList h = Some [] ->
  (exists out, HomepageFeatures styles props h = (Ok out, h) /\ row_cards out = []) /\
  render_root clsx styles (5 + n) h = (Ok [section_dom styles []], h).
Proof.
  intros Hrecs. split.
  - eexists. split; [by apply HomepageFeatures_spec|]. done.
  - unfold render_root, jsx. cbn [render Nat.add is_undefined hasValidKey].
    unfold bind at 1. rewrite (HomepageFeatures_spec _ _ _ _ Hrecs).
    reflexivity.
Qed.

Lemma render_empty_list_witness :
  read_FeatureList empty_list_heap = Some [] /\
  render_root sample_clsx sample_styles 5 empty_list_heap
  = (Ok [section_dom sample_styles []], empty_list_heap).
Proof.
  split; [reflexivity|].
  apply (render_empty_list sample_clsx sample_styles [] 0 empty_list_heap).
  reflexivity.
Defined.

(** ** Keys and props of the cards of any list *)

Lemma element_key_card_key (rec : object) (idx : nat) :
  element_key (card_element rec idx) = card_key rec idx.
Proof.
  unfold card_element, card_key, jsx, hasValidKey. simpl.
  by destruct (is_undefined (get "key" rec)).
Qed.

(** X3. The key of each card is the [key] field of its record when the
    record has one that is defined, and the index of the record otherwise:
    the spread, coming after [key={idx}], has the last word. *)
Theorem card_keys_of_any_list styles props h recs :
  read_FeatureList h = Some recs ->
  exists out,
    HomepageFeatures styles props h = (Ok out, h) /\
    card_keys out = imap (fun i rec => card_key rec i) recs.
Proof.
  intros Hrecs. eexists. split; [by apply HomepageFeatures_spec|].
  unfold card_keys. rewrite row_cards_section, fmap_imap.
  apply imap_ext. intros i rec _. apply element_key_card_key.
Qed.

Lemma card_keys_of_any_list_witness :
  read_FeatureList keyed_heap = Some keyed_records /\
  exists out,
    HomepageFeatures sample_styles [] keyed_heap = (Ok out, keyed_heap) /\
    card_keys out = imap (fun i rec => card_key rec i) keyed_records.
Proof.
  split; [reflexivity|].
  apply (card_keys_of_any_list sample_styles [] keyed_heap keyed_records).
  reflexivity.
Defined.




(** ** A record without a usable [Svg] *)

Lemma render_Feature_invalid clsx styles props :
  valid_type (get "Svg" props) = false ->
  forall m h, exists e, render clsx styles m (Feature clsx styles props) h = (Throw e, h).
Proof.
  intros HS m h. unfold Feature, jsx. cbn [is_undefined hasValidKey get own default
    String.eqb Ascii.eqb Bool.eqb negb filter list_filter fst].
  destruct m as [|[|[|[|m]]]]; try (eexists; reflexivity).
  destruct (get "Svg" props) as [| | | | | | | | |]; try discriminate HS;
    eexists; reflexivity.
Qed.

Lemma render_card_invalid clsx styles rec idx :
  valid_type (get "Svg" rec) = false ->
  forall m h, exists e, render clsx styles m (card_element rec idx) h = (Throw e, h).
Proof.
  intros HS [|m] h; [eexists; reflexivity|].
  unfold card_element, jsx. cbn [render].
  apply render_Feature_invalid. unfold get. by rewrite own_filter_ne.
Qed.

Lemma traverse_never_Ok {A B} (f : A -> M B) (x : A) (l : list A) :
  (forall h, exists e h', f x h = (Throw e, h')) ->
  x ∈ l ->
  forall h, exists e h', traverse f l h = (Throw e, h').
Proof.
  intros Hx. induction l as [|a l IH]; intros Hin h; [by apply elem_of_nil in Hin|].
  cbn [traverse]. unfold bind at 1.
  destruct (f a h) as [[b|e] h1] eqn:Ha; [|by eauto].
  apply elem_of_cons in Hin as [->|Hin].
  - destruct (Hx h) as (e & h' & He). congruence.
  - unfold bind at 1. destruct (IH Hin h1) as (e & h' & ->). eauto.
Qed.

(** X5. One record without a usable [Svg] (none, or a value that is neither
    a component nor a tag) takes the whole section down: whatever the other
    records are and however much fuel the render has, it does not return. *)
Theorem render_fails_without_Svg clsx styles h recs i rec n :
  read_FeatureList h = Some recs ->
  recs !! i = Some rec ->
  valid_type (get "Svg" rec) = false ->
  exists e, (render_root clsx styles n h).1 = Throw e.
Proof.
  intros Hrecs Hi HS. unfold render_root, jsx.
  destruct n as [|n]; [eexists; reflexivity|].
  cbn [render is_undefined hasValidKey].
  unfold bind at 1. rewrite (HomepageFeatures_spec _ _ _ _ Hrecs).
  unfold section_of.
  do 3 (destruct n as [|n]; [eexists; reflexivity|];
        cbn [render]; rewrite children_of_classed; unfold bind at 1).
  destruct n as [|n]; [eexists; reflexivity|].
  cbn [render]. unfold bind at 1.
  destruct (traverse_never_Ok (render clsx styles n) (card_element rec i)
              (imap (fun i r => card_element r i) recs)) with (h := h)
    as (e & h' & ->).
  - intros h0. destruct (render_card_invalid clsx styles rec i HS n h0) as [e He].
    eauto.
  - apply list_elem_of_lookup. exists i. by rewrite list_lookup_imap, Hi.
  - eexists. reflexivity.
Qed.

Lemma render_fails_without_Svg_witness :
  read_FeatureList heap_without_Svg
  = Some [ [ ("title", VString "Untitled");
             ("description", VString "No icon.") ] ] /\
  exists e, (render_root sample_clsx sample_styles 20 heap_without_Svg).1 = Throw e.
Proof.
  split; [reflexivity|].
  apply (render_fails_without_Svg sample_clsx sample_styles heap_without_Svg
           [ [ ("title", VString "Untitled");
               ("description", VString "No icon.") ] ]
           0 [ ("title", VString "Untitled");
               ("description", VString "No icon.") ] 20); reflexivity.
Defined.

(** ** A longer list *)



(** * The code samples of the study notes: properties *)

(** ** [Stack<T>] *)

Lemma Stack_isEmpty_push {T} (x : T) (s : Stack.t T) :
  Stack.isEmpty (Stack.push x s) = false.
Proof. unfold Stack.isEmpty, Stack.push. simpl. by destruct (Stack.elements s). Qed.

Lemma Stack_top_push {T} (x : T) (s : Stack.t T) :
  Stack.pop (Stack.push x s) = (Return x, s) /\
  Stack.peek (Stack.push x s) = Return x.
Proof.
  unfold Stack.pop, Stack.peek. rewrite Stack_isEmpty_push.
  destruct s as [l]. unfold Stack.push. cbn [Stack.elements].
  rewrite length_app. cbn [length]. replace (length l + 1 - 1) with (length l) by lia.
  rewrite list_lookup_middle by done. by rewrite delete_middle, app_nil_r.
Qed.

(** X7. Last in, first out: [pop] after [push] returns the element pushed
    and leaves the stack as it was before the push, whatever the stack held;
    [peek] after [push] sees that element. *)
Theorem Stack_pop_push {T} (x : T) (s : Stack.t T) :
  Stack.pop (Stack.push x s) = (Return x, s) /\
  Stack.peek (Stack.push x s) = Return x /\
  Stack.isEmpty (Stack.push x s) = false.
Proof.
  destruct (Stack_top_push x s) as [Hpop Hpeek].
  split; [exact Hpop|]. split; [exact Hpeek | apply Stack_isEmpty_push].
Qed.

(** X8. A stack is empty, and then [pop] and [peek] throw
    [EmptyStackException] and the stack stays as it is, or it is some stack
    with one more element pushed, and then [pop] returns that element and
    that stack.  The guard keeps the list's own bounds exception out. *)
Theorem Stack_pop_cases {T} (s : Stack.t T) :
  (Stack.isEmpty s = true /\
   Stack.pop s = (Raise EmptyStackException, s) /\
   Stack.peek s = Raise EmptyStackException) \/
  (exists x s', s = Stack.push x s' /\
                Stack.isEmpty s = false /\
                Stack.pop s = (Return x, s') /\
                Stack.peek s = Return x).
Proof.
  destruct s as [l]. destruct (decide (l = [])) as [->|Hl]; [by left|].
  right. destruct (exists_last Hl) as (l' & x & ->).
  exists x, {| Stack.elements := l' |}.
  change {| Stack.elements := l' ++ [x] |}
    with (Stack.push x {| Stack.elements := l' |}).
  split; [done|]. split; [apply Stack_isEmpty_push|]. apply Stack_top_push.
Qed.

Lemma Stack_push_all_snoc {T} (xs : list T) (x : T) (s : Stack.t T) :
  Stack.push_all (xs ++ [x]) s = Stack.push x (Stack.push_all xs s).
Proof. unfold Stack.push_all. by rewrite foldl_snoc. Qed.

(** X9. Pushing the elements of a list and popping as many times gives the
    elements back in reverse order and leaves the stack as it was. *)
Theorem Stack_pop_times_push_all {T} (xs : list T) (s : Stack.t T) :
  Stack.pop_times (length xs) (Stack.push_all xs s) = (Return (reverse xs), s).
Proof.
  induction xs as [|x xs IH] using rev_ind; [done|].
  rewrite Stack_push_all_snoc, length_app, Nat.add_1_r. cbn [Stack.pop_times].
  destruct (Stack_top_push x (Stack.push_all xs s)) as [-> _].
  by rewrite IH, reverse_snoc.
Qed.

(** ** [swap] *)

Lemma swap_in_range {T} (a : list T) (i j : Z) :
  (0 <= i < Z.of_nat (length a))%Z ->
  (0 <= j < Z.of_nat (length a))%Z ->
  exists x y,
    a !! Z.to_nat i = Some x /\ a !! Z.to_nat j = Some y /\
    swap (Some a) i j = Return (<[Z.to_nat j := x]> (<[Z.to_nat i := y]> a)).
Proof.
  intros Hi Hj.
  destruct (lookup_lt_is_Some_2 a (Z.to_nat i)) as [x Hx]; [lia|].
  destruct (lookup_lt_is_Some_2 a (Z.to_nat j)) as [y Hy]; [lia|].
  exists x, y. split; [done|]. split; [done|]. unfold swap.
  destruct (Z.ltb_spec i 0); [lia|].
  destruct (Z.geb_spec i (Z.of_nat (length a))); [lia|].
  destruct (Z.ltb_spec j 0); [lia|].
  destruct (Z.geb_spec j (Z.of_nat (length a))); [lia|].
  cbn [orb]. by rewrite Hx, Hy.
Qed.

(** X10. [swap] returns when, and only when, the array is there and both
    indices are within it; a bad index gives [IndexOutOfBoundsException],
    and a [null] array gives [NullPointerException] unless [i] is negative,
    which is seen first.  An array is never written when [swap] throws. *)
Theorem swap_returns_iff {T} (array : option (list T)) (i j : Z) :
  ((exists a', swap array i j = Return a') <->
   (exists a, array = Some a /\
              (0 <= i < Z.of_nat (length a))%Z /\
              (0 <= j < Z.of_nat (length a))%Z)) /\
  (array = None ->
   swap array i j
   = Raise (if (i <? 0)%Z then IndexOutOfBoundsException
            else NullPointerException)) /\
  (forall a, array = Some a ->
     ~ ((0 <= i < Z.of_nat (length a))%Z /\ (0 <= j < Z.of_nat (length a))%Z) ->
     swap array i j = Raise IndexOutOfBoundsException).
Proof.
  split; [split|split].
  - intros [a' H]. unfold swap in H.
    destruct (Z.ltb_spec i 0); [done|]. destruct array as [a|]; [|done].
    exists a. split; [done|].
    destruct (Z.geb_spec i (Z.of_nat (length a))); [done|].
    destruct (Z.ltb_spec j 0); [done|].
    destruct (Z.geb_spec j (Z.of_nat (length a))); [done|]. lia.
  - intros (a & -> & Hi & Hj).
    destruct (swap_in_range a i j Hi Hj) as (x & y & _ & _ & ->). eauto.
  - intros ->. unfold swap. by destruct (i <? 0)%Z.
  - intros a -> Hout. unfold swap.
    destruct (Z.ltb_spec i 0); [done|].
    destruct (Z.geb_spec i (Z.of_nat (length a))); [done|].
    destruct (Z.ltb_spec j 0); [done|].
    destruct (Z.geb_spec j (Z.of_nat (length a))); [done|]. lia.
Qed.

Lemma insert_insert_swap {T} (a : list T) (i j : nat) (x y : T) :
  a !! i = Some x -> a !! j = Some y ->
  <[j := y]> (<[i := x]> (<[j := x]> (<[i := y]> a))) = a.
Proof.
  intros Hx Hy. apply list_eq. intros k.
  pose proof (lookup_lt_Some _ _ _ Hx). pose proof (lookup_lt_Some _ _ _ Hy).
  destruct (decide (k = j)) as [->|Hkj].
  - rewrite list_lookup_insert_eq by (rewrite !length_insert; lia). done.
  - rewrite list_lookup_insert_ne by done.
    destruct (decide (k = i)) as [->|Hki].
    + rewrite list_lookup_insert_eq by (rewrite !length_insert; lia). done.
    + by rewrite !list_lookup_insert_ne by done.
Qed.

(** X11. Swapping twice at the same two places gives the array back: a
    [swap] that returns is undone by the same [swap]. *)
Theorem swap_involutive {T} (a a' : list T) (i j : Z) :
  swap (Some a) i j = Return a' ->
  swap (Some a') i j = Return a.
Proof.
  intros H.
  assert (Hr : exists a0, Some a = Some a0 /\
             (0 <= i < Z.of_nat (length a0))%Z /\ (0 <= j < Z.of_nat (length a0))%Z).
  { unfold swap in H.
    destruct (Z.ltb_spec i 0); [done|]. exists a. split; [done|].
    destruct (Z.geb_spec i (Z.of_nat (length a))); [done|].
    destruct (Z.ltb_spec j 0); [done|].
    destruct (Z.geb_spec j (Z.of_nat (length a))); [done|]. lia. }
  destruct Hr as (a0 & [= <-] & Hi & Hj).
  destruct (swap_in_range a i j Hi Hj) as (x & y & Hx & Hy & Hs).
  rewrite Hs in H. injection H as <-.
  set (a1 := <[Z.to_nat j := x]> (<[Z.to_nat i := y]> a)).
  assert (Hlen : length a1 = length a) by (unfold a1; by rewrite !length_insert).
  destruct (swap_in_range a1 i j) as (x' & y' & Hx' & Hy' & ->); [lia..|].
  f_equal. unfold a1 in *.
  pose proof (lookup_lt_Some _ _ _ Hx). pose proof (lookup_lt_Some _ _ _ Hy).
  rewrite list_lookup_insert_eq in Hy' by (rewrite length_insert; lia).
  injection Hy' as <-.
  destruct (decide (Z.to_nat i = Z.to_nat j)) as [Heq|Hne].
  - rewrite Heq in *. rewrite list_lookup_insert_eq in Hx' by (rewrite length_insert; lia).
    injection Hx' as <-. assert (x = y) as -> by congruence.
    rewrite !list_insert_insert_eq. by apply list_insert_id.
  - rewrite list_lookup_insert_ne in Hx' by done.
    rewrite list_lookup_insert_eq in Hx' by lia. injection Hx' as <-.
    by apply insert_insert_swap.
Qed.

Lemma swap_involutive_witness :
  swap (Some [10; 20; 30]%Z) 0 2 = Return [30; 20; 10]%Z /\
  swap (Some [30; 20; 10]%Z) 0 2 = Return [10; 20; 30]%Z.
Proof.
  split; [reflexivity|].
  apply (swap_involutive [10; 20; 30]%Z [30; 20; 10]%Z 0 2). reflexivity.
Defined.

Lemma Permutation_insert_head {T} (t : list T) (n : nat) (x y : T) :
  t !! n = Some y -> y :: <[n := x]> t ≡ₚ x :: t.
Proof.
  revert n. induction t as [|h t IH]; intros [|n] Hn; simplify_eq/=.
  - apply perm_swap.
  - rewrite (perm_swap h y), (perm_swap h x). by rewrite IH.
Qed.

Lemma Permutation_insert_swap {T} (a : list T) (i j : nat) (x y : T) :
  a !! i = Some x -> a !! j = Some y ->
  <[j := x]> (<[i := y]> a) ≡ₚ a.
Proof.
  revert i j. induction a as [|h t IH]; intros [|i] [|j] Hx Hy; simplify_eq/=.
  - done.
  - by apply Permutation_insert_head.
  - by apply Permutation_insert_head.
  - by rewrite IH.
Qed.

(** X12. A [swap] that returns has exchanged the two elements and nothing
    else: the array keeps its length, the element that was at [i] is at [j]
    and the other way round, every other place holds what it held, and the
    array holds the same elements as before, each as many times. *)
Theorem swap_exchanges {T} (a : list T) (i j : Z) :
  (0 <= i < Z.of_nat (length a))%Z ->
  (0 <= j < Z.of_nat (length a))%Z ->
  exists a',
    swap (Some a) i j = Return a' /\
    length a' = length a /\
    a' !! Z.to_nat i = a !! Z.to_nat j /\
    a' !! Z.to_nat j = a !! Z.to_nat i /\
    (forall k, k <> Z.to_nat i -> k <> Z.to_nat j -> a' !! k = a !! k) /\
    a' ≡ₚ a.
Proof.
  intros Hi Hj.
  destruct (swap_in_range a i j Hi Hj) as (x & y & Hx & Hy & ->).
  eexists. split; [done|].
  pose proof (lookup_lt_Some _ _ _ Hx). pose proof (lookup_lt_Some _ _ _ Hy).
  split; [by rewrite !length_insert|]. split; [|split; [|split]].
  - destruct (decide (Z.to_nat i = Z.to_nat j)) as [Heq|Hne].
    + rewrite Heq in *. rewrite list_lookup_insert_eq by (rewrite length_insert; lia).
      congruence.
    + rewrite list_lookup_insert_ne by done.
      by rewrite list_lookup_insert_eq by lia.
  - by rewrite list_lookup_insert_eq by (rewrite length_insert; lia).
  - intros k Hki Hkj. by rewrite !list_lookup_insert_ne by done.
  - by apply Permutation_insert_swap.
Qed.

Lemma swap_exchanges_witness :
  (0 <= 0 < Z.of_nat (length [10; 20; 30]%Z))%Z /\
  (0 <= 2 < Z.of_nat (length [10; 20; 30]%Z))%Z /\
  exists a',
    swap (Some [10; 20; 30]%Z) 0 2 = Return a' /\
    length a' = 3 /\ a' ≡ₚ [10; 20; 30]%Z.
Proof.
  split; [simpl; lia|]. split; [simpl; lia|].
  destruct (swap_exchanges [10; 20; 30]%Z 0 2) as (a' & H1 & H2 & _ & _ & _ & H3);
    [simpl; lia..|].
  exists a'. auto.
Defined.

(** ** [findMax] *)

Section FindMaxOrder.

Context {T : Type}.
Variable compareTo : T -> option T -> outcome Z.
Variable cmp : T -> T -> Z.

Hypothesis compareTo_cmp : forall x y, compareTo x (Some y) = Return (cmp x y).
Hypothesis cmp_trans :
  forall x y z, (cmp x y <= 0)%Z -> (cmp y z <= 0)%Z -> (cmp x z <= 0)%Z.
Hypothesis cmp_total : forall x y, (cmp x y > 0)%Z -> (cmp y x <= 0)%Z.
Hypothesis cmp_refl : forall x, (cmp x x <= 0)%Z.

(** The loop keeps a maximum of what it has seen, and the first of them. *)
Lemma findMax_loop_greatest (seen : list T) (m : T) (rest : list T) :
  m ∈ seen ->
  (forall x, x ∈ seen -> (cmp x m <= 0)%Z) ->
  (exists pre post, seen = (pre ++ m :: post)%list /\
                    forall x, x ∈ pre -> (cmp m x > 0)%Z) ->
  exists m',
    findMax_loop compareTo (Some <$> rest) (Some m) = Return (Some m') /\
    (forall x, x ∈ (seen ++ rest)%list -> (cmp x m' <= 0)%Z) /\
    (exists pre post, (seen ++ rest = pre ++ m' :: post)%list /\
                      forall x, x ∈ pre -> (cmp m' x > 0)%Z).
Proof.
  revert seen m. induction rest as [|y rest IH]; intros seen m Hm Hmax Hfirst.
  - exists m. rewrite app_nil_r. done.
  - cbn [fmap list_fmap findMax_loop]. rewrite compareTo_cmp.
    replace (seen ++ y :: rest)%list with ((seen ++ [y]) ++ rest)%list
      by (by rewrite <- app_assoc).
    destruct (Z.gtb_spec (cmp y m) 0) as [Hgt|Hle].
    + apply IH.
      * apply elem_of_app. right. by left.
      * intros x [Hx|Hx%list_elem_of_singleton]%elem_of_app.
        -- apply (cmp_trans x m y); [by apply Hmax | apply cmp_total; lia].
        -- subst x. apply cmp_refl.
      * exists seen, []. split; [done|]. intros x Hx.
        destruct (decide (cmp y x > 0)%Z) as [|Hn]; [done|].
        assert (cmp y m <= 0)%Z; [|lia].
        apply (cmp_trans y x m); [lia | by apply Hmax].
    + apply IH.
      * apply elem_of_app. by left.
      * intros x [Hx|Hx%list_elem_of_singleton]%elem_of_app;
          [by apply Hmax | subst x; lia].
      * destruct Hfirst as (pre & post & -> & Hpre).
        exists pre, (post ++ [y])%list. split; [by rewrite <- app_assoc|done].
Qed.

End FindMaxOrder.

(** X13. On an array without [null], and with a [compareTo] that is a total
    preorder, [findMax] returns an element of the array that none exceeds,
    and the first such: every element before it is strictly smaller. *)
Theorem findMax_greatest {T} (compareTo : T -> option T -> outcome Z)
    (cmp : T -> T -> Z) (xs : list T) :
  (forall x y, compareTo x (Some y) = Return (cmp x y)) ->
  (forall x y z, (cmp x y <= 0)%Z -> (cmp y z <= 0)%Z -> (cmp x z <= 0)%Z) ->
  (forall x y, (cmp x y > 0)%Z -> (cmp y x <= 0)%Z) ->
  (forall x, (cmp x x <= 0)%Z) ->
  xs <> [] ->
  exists m,
    findMax compareTo (Some (Some <$> xs)) = Return (Some m) /\
    (forall x, x ∈ xs -> (cmp x m <= 0)%Z) /\
    (exists pre post, xs = (pre ++ m :: post)%list /\
                      forall x, x ∈ pre -> (cmp m x > 0)%Z).
Proof.
  intros Hc Htrans Htotal Hrefl Hxs. destruct xs as [|x0 rest]; [done|].
  cbn [fmap list_fmap findMax].
  apply (findMax_loop_greatest compareTo cmp Hc Htrans Htotal Hrefl [x0] x0 rest).
  - by left.
  - intros x ->%list_elem_of_singleton. apply Hrefl.
  - exists [], []. split; [done|]. intros x Hx. by apply elem_of_nil in Hx.
Qed.

Lemma Integer_cmp_spec (x y : Z) :
  Integer_compareTo x (Some y)
  = Return (match (x ?= y)%Z with Lt => -1 | Eq => 0 | Gt => 1 end)%Z.
Proof. reflexivity. Qed.

Lemma findMax_greatest_witness :
  exists m,
    findMax Integer_compareTo (Some (Some <$> [1; 5; 3; 9; 2]%Z)) = Return (Some m) /\
    (forall x, x ∈ [1; 5; 3; 9; 2]%Z ->
       (match (x ?= m)%Z with Lt => -1 | Eq => 0 | Gt => 1 end <= 0)%Z) /\
    (exists pre post, [1; 5; 3; 9; 2]%Z = (pre ++ m :: post)%list /\
       forall x, x ∈ pre ->
         (match (m ?= x)%Z with Lt => -1 | Eq => 0 | Gt => 1 end > 0)%Z).
Proof.
  apply (findMax_greatest Integer_compareTo
           (fun x y => match (x ?= y)%Z with Lt => -1 | Eq => 0 | Gt => 1 end)%Z
           [1; 5; 3; 9; 2]%Z).
  - reflexivity.
  - intros x y z.
    destruct (Z.compare_spec x y), (Z.compare_spec y z), (Z.compare_spec x z); lia.
  - intros x y. destruct (Z.compare_spec x y), (Z.compare_spec y x); lia.
  - intros x. rewrite Z.compare_refl. lia.
  - discriminate.
Defined.




(** ** [UserRepository] *)

Lemma wrap64_small (z : Z) :
  (- 2 ^ 63 <= z < 2 ^ 63)%Z -> wrap64 z = z.
Proof. intros Hz. unfold wrap64. rewrite Z.mod_small; lia. Qed.

(** What [save] does to each part of the state. *)
Lemma UserRepository_save_state (σ : UserRepository.state) (u : positive) :
  let σ' := (UserRepository.save (Some u) σ).2 in
  let k := if (UserRepository.getId σ u =? 0)%Z
           then UserRepository.nextId σ else UserRepository.getId σ u in
  (UserRepository.save (Some u) σ).1 = Return tt /\
  UserRepository.getId σ' u = k /\
  UserRepository.users σ' = <[k := u]> (UserRepository.users σ) /\
  UserRepository.nextId σ'
  = (if (UserRepository.getId σ u =? 0)%Z
     then wrap64 (UserRepository.nextId σ + 1) else UserRepository.nextId σ) /\
  (forall v, v <> u -> UserRepository.objects σ' v = UserRepository.objects σ v).
Proof.
  unfold UserRepository.save, UserRepository.getId, UserRepository.setId.
  destruct (UserRepository.id (UserRepository.objects σ u) =? 0)%Z eqn:Hid;
    cbn [snd fst UserRepository.objects UserRepository.users UserRepository.nextId].
  - rewrite decide_True by done. cbn [UserRepository.id].
    repeat split; [done..|]. intros v Hv. by rewrite decide_False.
  - repeat split; done.
Qed.

(** X15. [save] then [findById]: a saved user is found under its id, which
    is the id it came with or, if it came with none, the [nextId] of the
    repository; no other entry of the map and no other user is touched. *)
Theorem UserRepository_save_findById (σ : UserRepository.state) (u : positive) :
  let σ' := (UserRepository.save (Some u) σ).2 in
  (UserRepository.save (Some u) σ).1 = Return tt /\
  UserRepository.findById (UserRepository.getId σ' u) σ' = Some u /\
  UserRepository.getId σ' u
  = (if (UserRepository.getId σ u =? 0)%Z
     then UserRepository.nextId σ else UserRepository.getId σ u) /\
  (forall k, k <> UserRepository.getId σ' u ->
     UserRepository.findById k σ' = UserRepository.findById k σ) /\
  (forall v, v <> u -> UserRepository.objects σ' v = UserRepository.objects σ v).
Proof.
  destruct (UserRepository_save_state σ u) as (Hr & Hid & Hus & _ & Hobj).
  cbv zeta in *. split; [done|]. unfold UserRepository.findById.
  rewrite Hus, Hid. split; [apply lookup_insert_eq|]. split; [done|].
  split; [|done]. intros k Hk. by rewrite lookup_insert_ne.
Qed.

(** X16. [delete] after [save]: the user is no longer found under its id,
    and every other id finds what it found before the two calls; [save] and
    [delete] of [null] throw and leave the repository as it is. *)
Theorem UserRepository_delete_save (σ : UserRepository.state) (u : positive) :
  let σ1 := (UserRepository.save (Some u) σ).2 in
  let σ2 := (UserRepository.delete (Some u) σ1).2 in
  UserRepository.findById (UserRepository.getId σ1 u) σ2 = None /\
  (forall k, k <> UserRepository.getId σ1 u ->
     UserRepository.findById k σ2 = UserRepository.findById k σ) /\
  UserRepository.save None σ = (Raise NullPointerException, σ) /\
  UserRepository.delete None σ = (Raise NullPointerException, σ).
Proof.
  destruct (UserRepository_save_state σ u) as (_ & Hid & Hus & _).
  cbv zeta in *. unfold UserRepository.findById, UserRepository.delete.
  cbn [snd UserRepository.users]. rewrite Hus, Hid.
  split; [apply lookup_delete_eq|]. split; [|done].
  intros k Hk. rewrite lookup_delete_ne by done. by rewrite lookup_insert_ne.
Qed.

Lemma UserRepository_save_all_fresh (us : list positive) :
  forall (σ : UserRepository.state) (n : Z),
    UserRepository.nextId σ = n ->
    (1 <= n)%Z ->
    (n + Z.of_nat (length us) <= 2 ^ 63 - 1)%Z ->
    NoDup us ->
    (forall u, u ∈ us -> UserRepository.getId σ u = 0%Z) ->
    let σ' := UserRepository.save_all us σ in
    UserRepository.nextId σ' = (n + Z.of_nat (length us))%Z /\
    (forall i u, us !! i = Some u ->
       UserRepository.getId σ' u = (n + Z.of_nat i)%Z /\
       UserRepository.findById (n + Z.of_nat i) σ' = Some u) /\
    (forall k, (k < n)%Z ->
       UserRepository.findById k σ' = UserRepository.findById k σ) /\
    (forall v, v ∉ us -> UserRepository.objects σ' v = UserRepository.objects σ v).
Proof.
  induction us as [|u us IH]; intros σ n Hn Hn1 Hlen Hnd H0; cbv zeta.
  - cbn [length UserRepository.save_all foldl]. split; [lia|]. done.
  - subst n. apply NoDup_cons in Hnd as [Hu Hnd]. cbn [length] in Hlen.
    destruct (UserRepository_save_state σ u) as (_ & Hid & Hus & Hnext & Hobj).
    cbv zeta in Hid, Hus, Hnext, Hobj.
    assert (H0u : UserRepository.getId σ u = 0%Z) by (apply H0; by left).
    rewrite H0u in Hid, Hus, Hnext. cbn [Z.eqb] in Hid, Hus, Hnext.
    rewrite wrap64_small in Hnext by lia.
    change (UserRepository.save_all (u :: us) σ)
      with (UserRepository.save_all us (UserRepository.save (Some u) σ).2).
    remember (UserRepository.save (Some u) σ).2 as σ1 eqn:Hσ1. clear Hσ1.
    destruct (IH σ1 (UserRepository.nextId σ + 1)%Z)
      as (Hnx & Hall & Hlow & Hout); [done|lia|lia|done| |].
    { intros v Hv. unfold UserRepository.getId.
      rewrite Hobj by (intros ->; done). apply H0. by right. }
    split; [cbn [length]; lia|]. split; [|split].
    + intros [|i] v Hv; simpl in Hv.
      * injection Hv as <-. rewrite Z.add_0_r. split.
        -- unfold UserRepository.getId. rewrite Hout by done. exact Hid.
        -- rewrite Hlow by lia. unfold UserRepository.findById.
           rewrite Hus. apply lookup_insert_eq.
      * replace (UserRepository.nextId σ + Z.of_nat (S i))%Z
          with (UserRepository.nextId σ + 1 + Z.of_nat i)%Z by lia.
        by apply Hall.
    + intros k Hk. rewrite Hlow by lia. unfold UserRepository.findById.
      rewrite Hus. apply lookup_insert_ne. lia.
    + intros v [Hvu Hv]%not_elem_of_cons. rewrite Hout by done. by apply Hobj.
Qed.

(** X17. Saving, in a new repository, users that have no id yet gives them
    the ids 1, 2, 3, ... in the order of the calls, and each is then found
    under its id; users that are not saved are left alone. *)
Theorem UserRepository_save_all_ids (objects : positive -> UserRepository.User)
    (us : list positive) :
  (Z.of_nat (length us) < 2 ^ 63 - 1)%Z ->
  NoDup us ->
  (forall u, u ∈ us -> UserRepository.id (objects u) = 0%Z) ->
  let σ' := UserRepository.save_all us (UserRepository.new objects) in
  UserRepository.nextId σ' = (1 + Z.of_nat (length us))%Z /\
  (forall i u, us !! i = Some u ->
     UserRepository.getId σ' u = (1 + Z.of_nat i)%Z /\
     UserRepository.findById (1 + Z.of_nat i) σ' = Some u) /\
  (forall v, v ∉ us -> UserRepository.objects σ' v = objects v).
Proof.
  intros Hlen Hnd H0.
  destruct (UserRepository_save_all_fresh us (UserRepository.new objects) 1)
    as (Hn & Hall & _ & Hout); [done|lia|lia|done|done|].
  cbv zeta. auto.
Qed.

Lemma UserRepository_save_all_ids_witness :
  let σ' := UserRepository.save_all [1; 2]%positive (UserRepository.new main_users) in
  UserRepository.nextId σ' = 3%Z /\
  UserRepository.findById 1 σ' = Some 1%positive /\
  UserRepository.findById 2 σ' = Some 2%positive.
Proof.
  destruct (UserRepository_save_all_ids main_users [1; 2]%positive)
    as (Hn & Hall & _).
  - simpl. lia.
  - apply NoDup_cons. split; [|apply NoDup_singleton].
    intros H%list_elem_of_singleton. discriminate H.
  - intros u _. unfold main_users. by case_decide.
  - cbv zeta. split; [exact Hn|]. split.
    + apply (Hall 0 1%positive). reflexivity.
    + apply (Hall 1 2%positive). reflexivity.
Defined.

(** ** [trim], [Person] and [Student] *)

Lemma drop_spaces_split (l : list Ascii.ascii) :
  exists s, l = (s ++ drop_spaces l)%list.
Proof.
  induction l as [|c l [s IH]]; [by exists []|]. cbn [drop_spaces].
  destruct (is_space c); [|by exists []].
  exists (c :: s). cbn [app]. by f_equal.
Qed.

Lemma drop_spaces_head (l : list Ascii.ascii) c l' :
  drop_spaces l = c :: l' -> is_space c = false.
Proof.
  induction l as [|d l IH]; [done|]. cbn [drop_spaces].
  destruct (is_space d) eqn:Hd; [exact IH|]. by intros [= <- _].
Qed.

Lemma drop_spaces_fixed (l : list Ascii.ascii) :
  drop_spaces (drop_spaces l) = drop_spaces l.
Proof.
  destruct (drop_spaces l) as [|c l'] eqn:Hl; [done|].
  cbn [drop_spaces]. by rewrite (drop_spaces_head _ _ _ Hl).
Qed.

Lemma strip_fixed (l : list Ascii.ascii) : strip (strip l) = strip l.
Proof.
  unfold strip. set (m := drop_spaces l).
  destruct (drop_spaces_split (rev m)) as [s Hs].
  set (r := drop_spaces (rev m)) in *.
  assert (Hrev : drop_spaces (rev r) = rev r).
  { destruct (rev r) as [|d t] eqn:Hr; [done|].
    assert (Hm : m = (d :: t ++ rev s)%list).
    { rewrite <- (rev_involutive m), Hs, rev_app_distr, Hr. done. }
    cbn [drop_spaces]. by rewrite (drop_spaces_head l d (t ++ rev s)%list Hm). }
  rewrite Hrev, rev_involutive. unfold r. by rewrite drop_spaces_fixed.
Qed.

Lemma trim_fixed (s : string) : trim (trim s) = trim s.
Proof.
  unfold trim. by rewrite list_ascii_of_string_of_list_ascii, strip_fixed.
Qed.

Lemma String_isEmpty_false (s : string) :
  String_isEmpty s = false -> s <> "".
Proof. by destruct s. Qed.

Lemma Person_do_call_keeps (p : Person.t) (c : Person.call) :
  (0 <= Person.age p <= 150)%Z ->
  (forall s, Person.name p = Some s -> s <> "" /\ trim s = s) ->
  (0 <= Person.age (Person.do_call p c) <= 150)%Z /\
  (forall s, Person.name (Person.do_call p c) = Some s -> s <> "" /\ trim s = s).
Proof.
  intros Hage Hname. destruct c as [[n|]|a]; cbn [Person.do_call].
  - unfold Person.setName.
    destruct (String_isEmpty (trim n)) eqn:Hn; cbn [negb]; [done|].
    split; [done|]. cbn [Person.name]. intros s [= <-].
    split; [by apply String_isEmpty_false | apply trim_fixed].
  - done.
  - unfold Person.setAge.
    destruct (Z.geb_spec a 0), (Z.leb_spec a 150); cbn [andb];
      first [done | split; [cbn [Person.age]; lia | done]].
Qed.

(** X18. A [Person] is always within its bounds: however it was constructed
    and whatever setters were called on it, with whatever arguments, its age
    is between 0 and 150 and its name is [null] or a non-empty string that
    has no space at either end. *)
Theorem Person_invariant (n : option string) (a : Z) (calls : list Person.call) :
  (0 <= Person.age (Person.run calls (Person.new n a)) <= 150)%Z /\
  (forall s, Person.name (Person.run calls (Person.new n a)) = Some s ->
     s <> "" /\ trim s = s).
Proof.
  change (Person.new n a)
    with (Person.run [Person.SetName n; Person.SetAge a]
            {| Person.name := None; Person.age := 0 |}).
  unfold Person.run. rewrite <- foldl_app.
  generalize ([Person.SetName n; Person.SetAge a] ++ calls)%list. intros l.
  assert (H : (0 <= Person.age {| Person.name := None; Person.age := 0 |} <= 150)%Z /\
              (forall s, Person.name {| Person.name := None; Person.age := 0 |} = Some s ->
                 s <> "" /\ trim s = s)) by (split; [simpl; lia | done]).
  revert H. generalize {| Person.name := None; Person.age := 0 |}.
  induction l as [|c l IH]; intros p [Hage Hname]; [done|].
  cbn [foldl]. apply IH. by apply Person_do_call_keeps.
Qed.

Lemma Student_run_age {double} (gpa_in_range : double -> bool)
    (calls : list (Student.call double)) :
  forall s : Student.t double,
    (Student.age s = 0 \/ Student.age_in_range (Student.age s) = true)%Z ->
    let s' := Student.run gpa_in_range calls s in
    (Student.age s' = 0 \/ Student.age_in_range (Student.age s') = true)%Z /\
    Student.id s' = Student.id s /\
    (Student.age s' = 0%Z <->
     Student.age s = 0%Z /\
     Forall (fun x => Student.age_in_range x = false) (Student.ages calls)).
Proof.
  induction calls as [|c calls IH]; intros s Hs; cbv zeta.
  - cbn. split; [done|]. split; [done|]. split; [by intros ->|by intros [-> _]].
  - change (Student.run gpa_in_range (c :: calls) s)
      with (Student.run gpa_in_range calls (Student.do_call gpa_in_range s c)).
    destruct c as [n|a|g]; cbn [Student.do_call Student.ages omap list_omap].
    + assert (Hsame : Student.age (Student.setName n s) = Student.age s /\
                      Student.id (Student.setName n s) = Student.id s).
      { unfold Student.setName. destruct n as [x|]; [|done].
        by destruct (negb (String_isEmpty (trim x))). }
      destruct Hsame as [Ha Hi].
      destruct (IH (Student.setName n s)) as (H1 & H2 & H3); [by rewrite Ha|].
      cbv zeta in *. rewrite Ha, Hi in *. done.
    + unfold Student.setAge. destruct (Student.age_in_range a) eqn:Hr.
      * destruct (IH {| Student.id := Student.id s; Student.name := Student.name s;
                        Student.age := a; Student.gpa := Student.gpa s |})
          as (H1 & H2 & H3); [by right|].
        cbv zeta in *. cbn [Student.age Student.id] in *.
        split; [done|]. split; [done|].
        assert (a <> 0)%Z.
        { unfold Student.age_in_range in Hr. destruct (Z.gtb_spec a 0); [lia|done]. }
        split.
        -- intros H0. apply H3 in H0 as [? _]. done.
        -- intros [_ HF]. apply Forall_cons in HF as [HF _]. congruence.
      * destruct (IH s Hs) as (H1 & H2 & H3). cbv zeta in *.
        split; [done|]. split; [done|]. rewrite H3, Forall_cons.
        split; [intros [? ?]; auto | intros [? [_ ?]]; auto].
    + assert (Hsame : Student.age (Student.setGpa gpa_in_range g s) = Student.age s /\
                      Student.id (Student.setGpa gpa_in_range g s) = Student.id s).
      { unfold Student.setGpa. by destruct (gpa_in_range g). }
      destruct Hsame as [Ha Hi].
      destruct (IH (Student.setGpa gpa_in_range g s)) as (H1 & H2 & H3);
        [by rewrite Ha|].
      cbv zeta in *. rewrite Ha, Hi in *. done.
Qed.

(** X19. A [Student] keeps the id it was constructed with, and its age is
    always 0 or an age [setAge] accepts (above 0 and below 150).  It is 0
    exactly when no age handed to the constructor or to [setAge] was in
    range: the constructor goes through the setter, so a rejected age leaves
    the field at its default, a value the setter itself refuses. *)
Theorem Student_age_and_id {double} (zero : double) (gpa_in_range : double -> bool)
    (i : Z) (n : option string) (a : Z) (g : double)
    (calls : list (Student.call double)) :
  let s := Student.run gpa_in_range calls (Student.new zero gpa_in_range i n a g) in
  Student.id s = i /\
  (0 <= Student.age s < 150)%Z /\
  Student.age_in_range 0 = false /\
  (Student.age s = 0%Z <->
   Forall (fun x => Student.age_in_range x = false) (a :: Student.ages calls)).
Proof.
  cbv zeta.
  change (Student.new zero gpa_in_range i n a g)
    with (Student.run gpa_in_range
            [Student.SetName n; Student.SetAge a; Student.SetGpa g]
            {| Student.id := i; Student.name := None;
               Student.age := 0; Student.gpa := zero |}).
  unfold Student.run. rewrite <- foldl_app.
  destruct (Student_run_age gpa_in_range
              ([Student.SetName n; Student.SetAge a; Student.SetGpa g] ++ calls)%list
              {| Student.id := i; Student.name := None;
                 Student.age := 0; Student.gpa := zero |})
    as (H1 & H2 & H3); [by left|].
  cbv zeta in *. unfold Student.run in *. cbn [Student.id Student.age] in *.
  split; [done|]. split.
  - destruct H1 as [->|Hr]; [lia|]. unfold Student.age_in_range in Hr.
    destruct (Z.gtb_spec (Student.age (foldl (Student.do_call gpa_in_range)
      {| Student.id := i; Student.name := None; Student.age := 0; Student.gpa := zero |}
      ([Student.SetName n; Student.SetAge a; Student.SetGpa g] ++ calls)%list)) 0);
      [|done].
    cbn [andb] in Hr. apply Z.ltb_lt in Hr. lia.
  - split; [done|]. rewrite H3. cbn.
    split; [intros [_ HF]; exact HF | intros HF; split; [reflexivity | exact HF]].
Qed.
